(** * christtech-portfolio: the three integrations of [src/index.tsx]

    A shallow embedding of the stateful parts of the page: the project
    gallery ([Projects] / [fetchGitHubProjects]), the assistant chat
    ([AIChat] / [handleSend]) and the contact form ([Contact] /
    [handleSubmit]).  React state is a record, every [setX] is a field
    update, and an [async] handler is cut at its [await]: the part before it
    and the part that runs once the awaited promise has settled. *)

From Stdlib Require Import List String Ascii Bool Arith Lia QArith.
From Stdlib Require Import Sorting.Permutation.
Import ListNotations.

Local Close Scope Q_scope.
Local Open Scope string_scope.
Local Open Scope nat_scope.
Local Open Scope list_scope.

(** ** JavaScript strings and values

    A [string] is read as a sequence of code units below 256. *)
Module Js.

(** [s.length] *)
Definition length := String.length.

(** [s.slice(n)] for [0 <= n] *)
Fixpoint slice (n : nat) (s : string) : string :=
  match n, s with
  | O, _ => s
  | S _, EmptyString => EmptyString
  | S n', String _ s' => slice n' s'
  end.

(** [s.startsWith(p)] *)
Fixpoint startsWith (p s : string) : bool :=
  match p, s with
  | EmptyString, _ => true
  | String _ _, EmptyString => false
  | String a p', String b s' => Ascii.eqb a b && startsWith p' s'
  end.

(** [s.includes(p)] *)
Fixpoint includes (p s : string) : bool :=
  startsWith p s ||
  match s with
  | EmptyString => false
  | String _ s' => includes p s'
  end.

(** [s.replace(p, r)] with a string pattern: the first occurrence only.
    (The one call site passes the replacement [''], so the [$]-patterns of
    a replacement string play no part.) *)
Fixpoint replace (p r s : string) : string :=
  if startsWith p s then (r ++ slice (length p) s)%string
  else match s with
       | EmptyString => EmptyString
       | String c s' => String c (replace p r s')
       end.

(** [s.split(sep)] for a one-character separator *)
Fixpoint split (sep : ascii) (s : string) : list string :=
  match s with
  | EmptyString => [EmptyString]
  | String c s' =>
      if Ascii.eqb c sep then EmptyString :: split sep s'
      else match split sep s' with
           | w :: ws => String c w :: ws
           | [] => [String c EmptyString]
           end
  end.

(** [ws.join(sep)] *)
Definition join (sep : string) (ws : list string) : string :=
  String.concat sep ws.

(** [c.toUpperCase()] on one code unit.  Repository names on the hosting
    service are made of ASCII letters, digits, [.], [-] and [_]; other
    code units are left alone here. *)
Definition toUpperCase (c : ascii) : ascii :=
  let n := nat_of_ascii c in
  if (97 <=? n) && (n <=? 122) then ascii_of_nat (n - 32) else c.

(** White space and line terminators of ECMAScript among the code units
    below 256: TAB, LF, VT, FF, CR, SP and NBSP. *)
Definition isSpace (c : ascii) : bool :=
  let n := nat_of_ascii c in
  ((9 <=? n) && (n <=? 13)) || (n =? 32) || (n =? 160).

Fixpoint trimStart (s : string) : string :=
  match s with
  | EmptyString => EmptyString
  | String c s' => if isSpace c then trimStart s' else s
  end.

(** drops the trailing white space; [trimEnd] of an all-blank string is ['']. *)
Fixpoint trimEnd (s : string) : string :=
  match s with
  | EmptyString => EmptyString
  | String c s' =>
      match trimEnd s' with
      | EmptyString => if isSpace c then EmptyString else String c EmptyString
      | t => String c t
      end
  end.

(** A string made of white space only (the empty one included). *)
Fixpoint allSpace (s : string) : bool :=
  match s with
  | EmptyString => true
  | String c s' => isSpace c && allSpace s'
  end.

(** [s.trim()] *)
Definition trim (s : string) : string := trimEnd (trimStart s).

(** Truthiness of a string: [''] is falsy. *)
Definition truthyStr (s : string) : bool :=
  match s with EmptyString => false | String _ _ => true end.

(** Truthiness of a value that is a string, [null] or [undefined]. *)
Definition truthy (v : option string) : bool :=
  match v with Some s => truthyStr s | None => false end.

(** [v || d] where [d] is a string *)
Definition orElse (v : option string) (d : string) : string :=
  match v with
  | Some s => if truthyStr s then s else d
  | None => d
  end.

(** [a || b] where both may be [null] *)
Definition orElseOpt (a b : option string) : option string :=
  if truthy a then a else b.

(** [Math.random] as the sequence of its successive results, with the
    number of calls made so far. *)
Record Random := { draws : nat -> Q; calls : nat }.

Definition Math_random (g : Random) : Q * Random :=
  (draws g (calls g), {| draws := draws g; calls := S (calls g) |}).

(** A comparator handed to [Array.prototype.sort]: it may call
    [Math.random]. *)
Definition Comparator (A : Type) := A -> A -> Random -> Q * Random.

(** A reference [Array.prototype.sort]: straight insertion, the element
    being inserted compared with the sorted ones from the left, and placed
    before the first one the comparator does not put it after. *)
Fixpoint insert {A} (cmp : Comparator A) (x : A) (l : list A) (g : Random)
  : list A * Random :=
  match l with
  | [] => ([x], g)
  | y :: t =>
      let (r, g1) := cmp x y g in
      if Qle_bool r 0 then (x :: y :: t, g1)
      else let (t', g2) := insert cmp x t g1 in (y :: t', g2)
  end.

Fixpoint insertionSort {A} (cmp : Comparator A) (l : list A) (g : Random)
  : list A * Random :=
  match l with
  | [] => ([], g)
  | x :: t =>
      let (t', g1) := insertionSort cmp t g in
      insert cmp x t' g1
  end.

End Js.

(** ** The project gallery: [Projects] and [fetchGitHubProjects] *)
Module Gallery.

(** [interface GitHubRepo].  The hosting service sends [null] for a
    repository without description, homepage or language. *)
Record GitHubRepo := {
  name : string;
  description : option string;
  html_url : string;
  homepage : option string;
  topics : list string;
  stargazers_count : nat;
  language : option string;
  updated_at : string
}.

(** [interface Project] *)
Record Project := {
  title : string;
  category : string;
  p_description : string;
  image : string;
  tags : list string;
  link : option string;
  github : option string;
  stars : option nat;
  p_language : option string;
  updated : option string
}.

(** The state of the [Projects] component. *)
Record State := {
  projects : list Project;
  loading : bool;
  error : string
}.

(** [useState([])], [useState(true)], [useState('')] *)
Definition initial : State :=
  {| projects := []; loading := true; error := "" |}.

(** What [await fetch(...)] followed by [await response.json()] comes to. *)
Inductive Fetched :=
| FetchRejects (err : string)
| NotOk
| JsonRejects (err : string)
| Repos (repos : list GitHubRepo).

(** The predicate of [repos.filter]:
    [!repo.name.includes('ChristTech') && repo.description] *)
Definition validRepo (repo : GitHubRepo) : bool :=
  negb (Js.includes "ChristTech" (name repo)) && Js.truthy (description repo).

(** A qualifying repository, in the words of the specification: its
    description is not empty, and its name does not contain the handle of
    the account. *)
Definition qualifies (repo : GitHubRepo) : Prop :=
  (exists d, description repo = Some d /\ d <> "") /\
  ~ (exists a b, name repo = (a ++ "ChristTech" ++ b)%string).

(** [() => Math.random() - 0.5] *)
Definition comparefn : Js.Comparator GitHubRepo :=
  fun _ _ g => let (r, g') := Js.Math_random g in ((r - (1 # 2))%Q, g').

(** [word => word.charAt(0).toUpperCase() + word.slice(1)] *)
Definition capitalize (word : string) : string :=
  match word with
  | EmptyString => EmptyString
  | String c rest => String (Js.toUpperCase c) rest
  end.

Section Engine.

(** [new Date(s).toLocaleDateString()]: depends on the locale of the
    browser. *)
Variable toLocaleDateString : string -> string.

(** The engine's [Array.prototype.sort].  With a comparator that is not
    consistent the order is implementation-defined; the engines sort by
    moving the elements, which is all that is assumed of them. *)
Variable Array_sort :
  Js.Comparator GitHubRepo -> list GitHubRepo -> Js.Random ->
  list GitHubRepo * Js.Random.

(** The callback of [.map] in [mappedProjects]. *)
Definition toProject (repo : GitHubRepo) : Project :=
  {| title := Js.join " " (map capitalize (Js.split "-" (name repo)));
     category := Js.orElse (language repo) "Open Source";
     p_description :=
       Js.orElse (description repo)
         "An innovative project showcasing technical excellence.";
     image :=
       ("https://opengraph.githubassets.com/1/" ++
        Js.replace "https://github.com/" "" (html_url repo))%string;
     tags :=
       if 0 <? List.length (topics repo) then firstn 4 (topics repo)
       else [Js.orElse (language repo) "Code"];
     link := Some (Js.orElse (homepage repo) (html_url repo));
     github := Some (html_url repo);
     stars := Some (stargazers_count repo);
     p_language := language repo;
     updated := Some (toLocaleDateString (updated_at repo)) |}.

(** [validRepos] *)
Definition validRepos (repos : list GitHubRepo) : list GitHubRepo :=
  filter validRepo repos.

(** [shuffled] *)
Definition shuffled (repos : list GitHubRepo) (g : Js.Random) : list GitHubRepo :=
  fst (Array_sort comparefn (validRepos repos) g).

(** [mappedProjects]: [shuffled.slice(0, 6).map(...)] *)
Definition mappedProjects (repos : list GitHubRepo) (g : Js.Random) : list Project :=
  map toProject (firstn 6 (shuffled repos g)).

(** [fetchGitHubProjects], run from the state [s] once the request has
    settled as [r]. *)
Definition fetchGitHubProjects (r : Fetched) (g : Js.Random) (s : State) : State :=
  match r with
  | Repos repos =>
      {| projects := mappedProjects repos g; loading := false; error := error s |}
  | FetchRejects _ | NotOk | JsonRejects _ =>
      {| projects := projects s; loading := false;
         error := "Unable to load projects" |}
  end.

End Engine.

End Gallery.

(** ** The assistant chat: [AIChat] and [handleSend] *)
Module Chat.

Inductive Role := user | ai.

(** [interface Message] *)
Record Message := { role : Role; text : string }.

(** The state of the [AIChat] component. *)
Record State := {
  isOpen : bool;
  messages : list Message;
  input : string;
  isTyping : bool
}.

Definition seed : Message :=
  {| role := ai;
     text := "Hi! I'm CHRISTTech's AI assistant. Ask me anything about machine learning, robotics projects, or tech stack!" |}.

Definition initial : State :=
  {| isOpen := false; messages := [seed]; input := ""; isTyping := false |}.

Definition setIsOpen (b : bool) (s : State) : State :=
  {| isOpen := b; messages := messages s; input := input s;
     isTyping := isTyping s |}.

(** [setMessages(prev => f(prev))] *)
Definition setMessages (f : list Message -> list Message) (s : State) : State :=
  {| isOpen := isOpen s; messages := f (messages s); input := input s;
     isTyping := isTyping s |}.

Definition setInput (v : string) (s : State) : State :=
  {| isOpen := isOpen s; messages := messages s; input := v;
     isTyping := isTyping s |}.

Definition setIsTyping (b : bool) (s : State) : State :=
  {| isOpen := isOpen s; messages := messages s; input := input s;
     isTyping := b |}.

(** [prev => [...prev, m]] *)
Definition push (m : Message) (prev : list Message) : list Message :=
  prev ++ [m].

(** The text of the [catch] branch. *)
Definition connectionIssues : string :=
  "Connection issues. Alex must be coding something big!".

(** The text put in place of an empty reply. *)
Definition littleGlitch : string :=
  "I'm having a little glitch. Can you try again?".

(** How [await model.generateContent(userMsg)] and then
    [result.response.text()] come out: the promise rejects (transport or
    protocol error), the response is not of the expected shape and reading
    its text throws, or the text is returned. *)
Inductive Generated :=
| GenerateRejects (err : string)
| TextThrows (err : string)
| Text (t : string).

(** The request failed: no text came back. *)
Definition failed (r : Generated) : bool :=
  match r with
  | GenerateRejects _ | TextThrows _ => true
  | Text _ => false
  end.

(** A completed [try] block, or the value it threw. *)
Inductive Completion :=
| Normal (s : State)
| Throw (err : string) (s : State).

(** [try ... catch (error) ... finally ...] around a block that has come
    out as [c]; the handler and the cleanup act on the state. *)
Definition tryCatchFinally (c : Completion)
  (handler : string -> State -> State) (cleanup : State -> State) : State :=
  match c with
  | Normal s => cleanup s
  | Throw err s => cleanup (handler err s)
  end.

(** [catch (error) { console.error(...); setMessages(...) }]: the error
    goes to the console only. *)
Definition onError (_ : string) (s : State) : State :=
  setMessages (push {| role := ai; text := connectionIssues |}) s.

(** [finally { setIsTyping(false) }] *)
Definition cleanup (s : State) : State := setIsTyping false s.

(** The [try] block after the [await], the request having settled as [r]. *)
Definition afterAwait (r : Generated) (s : State) : Completion :=
  match r with
  | GenerateRejects err => Throw err s
  | TextThrows err => Throw err s
  | Text t =>
      let aiResponse := Js.orElse (Some t) littleGlitch in
      Normal (setMessages (push {| role := ai; text := aiResponse |}) s)
  end.

(** A call of an [async] handler either runs to its end or stops at the
    [await], a request having been issued. *)
Inductive Suspended :=
| Finished (s : State)
| AwaitGenerate (prompt : string) (s : State).

(** [handleSend] up to its [await]; [apiKey] is [process.env.API_KEY]. *)
Definition handleSend (apiKey : option string) (s : State) : Suspended :=
  if negb (Js.truthyStr (Js.trim (input s))) || isTyping s then Finished s
  else
    let userMsg := Js.trim (input s) in
    let s1 := setInput "" s in
    let s2 := setMessages (push {| role := user; text := userMsg |}) s1 in
    let s3 := setIsTyping true s2 in
    if negb (Js.truthy apiKey) then
      Finished (tryCatchFinally (Throw "API key is missing" s3) onError cleanup)
    else AwaitGenerate userMsg s3.

(** [handleSend] from its [await] on: the state is the one of the
    component when the request settles. *)
Definition resume (r : Generated) (s : State) : State :=
  tryCatchFinally (afterAwait r s) onError cleanup.

(** A submit that passes the guard of [handleSend]: the input is not
    blank and no request is in flight. *)
Definition accepted (s : State) : Prop :=
  Js.allSpace (input s) = false /\ isTyping s = false.

(** What can happen to the component: the user types, opens or closes the
    panel, sends (button or Enter key), and a request in flight settles. *)
Inductive Event :=
| Change (v : string)
| Toggle
| Close
| Send
| Settle (r : Generated).

(** The component with the requests in flight (their prompts, oldest
    first). *)
Record Session := { state : State; inFlight : list string }.

Definition start : Session := {| state := initial; inFlight := [] |}.

(** One event; [None] when the event cannot happen (nothing in flight to
    settle). *)
Definition step (apiKey : option string) (e : Event) (c : Session) : option Session :=
  match e with
  | Change v => Some {| state := setInput v (state c); inFlight := inFlight c |}
  | Toggle =>
      Some {| state := setIsOpen (negb (isOpen (state c))) (state c);
              inFlight := inFlight c |}
  | Close => Some {| state := setIsOpen false (state c); inFlight := inFlight c |}
  | Send =>
      match handleSend apiKey (state c) with
      | Finished s => Some {| state := s; inFlight := inFlight c |}
      | AwaitGenerate prompt s =>
          Some {| state := s; inFlight := inFlight c ++ [prompt] |}
      end
  | Settle r =>
      match inFlight c with
      | [] => None
      | _ :: rest => Some {| state := resume r (state c); inFlight := rest |}
      end
  end.

(** A run of events from a session. *)
Fixpoint run (apiKey : option string) (es : list Event) (c : Session) : option Session :=
  match es with
  | [] => Some c
  | e :: es' =>
      match step apiKey e c with
      | Some c' => run apiKey es' c'
      | None => None
      end
  end.

(** The state in which [handleSend] awaits its request, written out. *)
Definition sent (s : State) : State :=
  setIsTyping true
    (setMessages (push {| role := user; text := Js.trim (input s) |})
       (setInput "" s)).

(** At most one request is in flight, and the typing flag is up exactly
    while there is one. *)
Definition oneAtATime (c : Session) : Prop :=
  (inFlight c = [] /\ isTyping (state c) = false) \/
  (exists prompt, inFlight c = [prompt] /\ isTyping (state c) = true).

End Chat.

(** ** The contact form: [Contact] and [handleSubmit] *)
Module Contact.

(** ['idle' | 'loading' | 'success' | 'error'] *)
Inductive FormState := idle | loading | success | error.

(** The values of the three inputs of the form. *)
Record Fields := { f_name : string; f_email : string; f_message : string }.

(** What [form.reset()] leaves: the inputs have no default value. *)
Definition blank : Fields :=
  {| f_name := ""; f_email := ""; f_message := "" |}.

(** The state of the [Contact] component; [formRef] is [formRef.current],
    the mounted form with the values of its inputs, or [null]. *)
Record State := {
  formState : FormState;
  errorMessage : string;
  formRef : option Fields
}.

Definition setFormState (v : FormState) (s : State) : State :=
  {| formState := v; errorMessage := errorMessage s; formRef := formRef s |}.

Definition setErrorMessage (v : string) (s : State) : State :=
  {| formState := formState s; errorMessage := v; formRef := formRef s |}.

(** [formRef.current.reset()] *)
Definition reset (s : State) : State :=
  {| formState := formState s; errorMessage := errorMessage s;
     formRef := Some blank |}.

(** The first render: the form is shown, empty. *)
Definition initial : State :=
  {| formState := idle; errorMessage := ""; formRef := Some blank |}.

(** The render after a state change: the form is mounted in every state
    but [success], where the confirmation panel stands in its place; a
    form that stays mounted keeps the values of its inputs. *)
Definition render (s : State) : State :=
  match formState s with
  | success =>
      {| formState := success; errorMessage := errorMessage s; formRef := None |}
  | _ =>
      match formRef s with
      | Some _ => s
      | None =>
          {| formState := formState s; errorMessage := errorMessage s;
             formRef := Some blank |}
      end
  end.

(** The error panel: [formState === 'error' && <div>{errorMessage}</div>]
    inside the form. *)
Definition displayedError (s : State) : option string :=
  match formState s, formRef s with
  | error, Some _ => Some (errorMessage s)
  | _, _ => None
  end.

(** The body the relay answers with, [await response.json()]. *)
Record RelayData := { r_success : bool; r_message : option string }.

(** How [await fetch(...)] and [await response.json()] come out. *)
Inductive Relayed :=
| FetchRejects (err : string)
| JsonRejects (err : string)
| Json (data : RelayData).

Definition somethingWentWrong : string :=
  "Something went wrong. Please try again.".

Definition networkError : string :=
  "Network error. Please check your connection and try again.".

(** The entries of the [FormData] posted to the relay; [accessKeyEnv] is
    [import.meta.env.VITE_WEB3FORMS_KEY]. *)
Definition formData (accessKeyEnv : option string) (f : Fields)
  : list (string * string) :=
  [("name", f_name f); ("email", f_email f); ("message", f_message f);
   ("access_key", Js.orElse accessKeyEnv "YOUR_ACCESS_KEY_HERE");
   ("subject", "New Contact Form Submission from CHRISTTech Portfolio");
   ("from_name", "CHRISTTech Portfolio")].

(** [handleSubmit] up to its first [await]: the new state and the body of
    the request ([e.target] is the mounted form). *)
Definition handleSubmit (accessKeyEnv : option string) (s : State)
  : State * list (string * string) :=
  let s1 := setErrorMessage "" (setFormState loading s) in
  (s1, formData accessKeyEnv (match formRef s with Some f => f | None => blank end)).

(** [handleSubmit] from its [await]s on. *)
Definition resume (r : Relayed) (s : State) : State :=
  match r with
  | Json data =>
      if r_success data then
        let s1 := setFormState success s in
        match formRef s1 with
        | Some _ => reset s1
        | None => s1
        end
      else
        setErrorMessage (Js.orElse (r_message data) somethingWentWrong)
          (setFormState error s)
  | FetchRejects _ | JsonRejects _ =>
      setErrorMessage networkError (setFormState error s)
  end.

(** A whole submit as the user sees it: the handler runs, the page is
    rendered, the relay answers, the page is rendered again. *)
Definition submit (accessKeyEnv : option string) (r : Relayed) (s : State) : State :=
  render (resume r (render (fst (handleSubmit accessKeyEnv s)))).

(** The button of the confirmation panel: [() => setFormState('idle')],
    and the render that follows. *)
Definition sendAnother (s : State) : State := render (setFormState idle s).

(** The user edits the inputs of the mounted form. *)
Definition edit (f : Fields) (s : State) : State :=
  match formRef s with
  | Some _ =>
      {| formState := formState s; errorMessage := errorMessage s;
         formRef := Some f |}
  | None => s
  end.

End Contact.

(** ** Concrete inputs *)
Module Examples.

(** [Math.random] returning 0 at every call: the comparator answers -0.5. *)
Definition lowDraws : Js.Random :=
  {| Js.draws := fun _ => 0%Q; Js.calls := 0 |}.

(** [Math.random] returning 0.75 and 0.25 in turn. *)
Definition mixedDraws : Js.Random :=
  {| Js.draws := fun n => if Nat.even n then (3 # 4)%Q else (1 # 4)%Q;
     Js.calls := 0 |}.

(** A date format: the day of an ISO 8601 timestamp. *)
Definition isoDay (s : string) : string := String.substring 0 10 s.

(** A repository of the account as the hosting service lists it. *)
Definition repo (n : string) (d : option string) (t : list string)
  : Gallery.GitHubRepo :=
  {| Gallery.name := n;
     Gallery.description := d;
     Gallery.html_url := ("https://github.com/ChristTech/" ++ n)%string;
     Gallery.homepage := None;
     Gallery.topics := t;
     Gallery.stargazers_count := 0;
     Gallery.language := Some "Python";
     Gallery.updated_at := "2024-05-01T00:00:00Z" |}.

Definition profileRepo := repo "ChristTech" (Some "profile") [].
Definition roboArm := repo "robo-arm" (Some "") [].
Definition visionApp := repo "vision-app" (Some "CV pipeline") ["cv"; "python"].

(** The batch of the end-to-end scenario of the gallery. *)
Definition scenario : list Gallery.GitHubRepo :=
  [profileRepo; roboArm; visionApp].

(** Seven qualifying repositories, a profile repository and one without
    description. *)
Definition nine : list Gallery.GitHubRepo :=
  [repo "alpha" (Some "a") []; repo "beta" (Some "b") [];
   profileRepo;
   repo "gamma" (Some "c") []; repo "delta" (Some "d") [];
   repo "eps" None [];
   repo "zeta" (Some "e") []; repo "eta" (Some "f") [];
   repo "theta" (Some "g") []].

(** The chat with [hello] typed in, surrounded by blanks. *)
Definition typedHello : Chat.State := Chat.setInput "  hello " Chat.initial.

(** The chat with a blank input. *)
Definition typedBlank : Chat.State := Chat.setInput "   " Chat.initial.

(** The contact form filled in. *)
Definition filled : Contact.State :=
  Contact.edit
    {| Contact.f_name := "Ada"; Contact.f_email := "ada@example.org";
       Contact.f_message := "Hello" |}
    Contact.initial.

End Examples.

(** ** The reveal hook: [useReveal] *)
Module Reveal.

(** What the hook reads of an [IntersectionObserverEntry]. *)
Record Entry := { isIntersecting : bool }.

(** [useState(false)] *)
Definition initial : bool := false.

(** The callback of the observer, [([entry]) => { if (entry.isIntersecting)
    setIsVisible(true) }]: it reads the first entry of the batch it is
    given, and acts on [isVisible]. *)
Definition onIntersect (entry : Entry) (rest : list Entry) (isVisible : bool) : bool :=
  if isIntersecting entry then true else isVisible.

(** The batches the observer delivers, in turn. *)
Fixpoint notify (batches : list (Entry * list Entry)) (isVisible : bool) : bool :=
  match batches with
  | [] => isVisible
  | (entry, rest) :: more => notify more (onIntersect entry rest isVisible)
  end.

(** The class of a revealed element: [`reveal ${isVisible ? 'visible' : ''}`] *)
Definition className (isVisible : bool) : string :=
  ("reveal " ++ (if isVisible then "visible" else ""))%string.

End Reveal.

(** ** The navigation bar: [Navbar] *)
Module Navbar.

Record State := { isScrolled : bool; isMobileMenuOpen : bool }.

Definition initial : State :=
  {| isScrolled := false; isMobileMenuOpen := false |}.

Definition setIsScrolled (b : bool) (s : State) : State :=
  {| isScrolled := b; isMobileMenuOpen := isMobileMenuOpen s |}.

Definition setIsMobileMenuOpen (b : bool) (s : State) : State :=
  {| isScrolled := isScrolled s; isMobileMenuOpen := b |}.

(** [() => setIsScrolled(window.scrollY > 20)] *)
Definition handleScroll (scrollY : Q) (s : State) : State :=
  setIsScrolled (negb (Qle_bool scrollY 20)) s.

(** The window scrolls, the menu button is pressed, a link of the mobile
    menu is followed. *)
Inductive Event :=
| Scroll (scrollY : Q)
| MenuButton
| MenuLink.

Definition step (e : Event) (s : State) : State :=
  match e with
  | Scroll y => handleScroll y s
  | MenuButton => setIsMobileMenuOpen (negb (isMobileMenuOpen s)) s
  | MenuLink => setIsMobileMenuOpen false s
  end.

Fixpoint run (es : list Event) (s : State) : State :=
  match es with
  | [] => s
  | e :: es' => run es' (step e s)
  end.

(** The position of the last scroll among the events, if the window
    scrolled at all. *)
Fixpoint lastScroll (es : list Event) : option Q :=
  match es with
  | [] => None
  | e :: es' =>
      match lastScroll es', e with
      | Some y, _ => Some y
      | None, Scroll y => Some y
      | None, _ => None
      end
  end.

Definition isMenuButton (e : Event) : bool :=
  match e with MenuButton => true | _ => false end.

Definition isMenuLink (e : Event) : bool :=
  match e with MenuLink => true | _ => false end.

End Navbar.

(** ** What [Projects] and [ProjectCard] render *)
Module GalleryView.
Import Gallery.

(** What [ProjectCard] makes of a project at a position of the grid: the
    delay of its transition in milliseconds ([index * 150]) and the
    repository button, there when [project.github] is truthy. *)
Record Card := {
  project : Project;
  transitionDelay : nat;
  githubButton : option string
}.

Definition ProjectCard (proj : Project) (index : nat) : Card :=
  {| project := proj;
     transitionDelay := index * 150;
     githubButton := if Js.truthy (github proj) then github proj else None |}.

(** [xs.map((x, idx) => f(x, idx))], counting from [idx]. *)
Fixpoint mapFrom {A B} (f : A -> nat -> B) (idx : nat) (xs : list A) : list B :=
  match xs with
  | [] => []
  | x :: xs' => f x idx :: mapFrom f (S idx) xs'
  end.

(** The three things the section shows. *)
Inductive View :=
| Spinner
| ErrorPanel (msg : string)
| Grid (cards : list Card).

(** [loading ? spinner : error ? panel : grid] *)
Definition view (s : State) : View :=
  if loading s then Spinner
  else if Js.truthyStr (error s) then ErrorPanel (error s)
  else Grid (mapFrom ProjectCard 0 (projects s)).

(** The cards on the page. *)
Definition cards (s : State) : list Card :=
  match view s with
  | Grid cs => cs
  | _ => []
  end.

(** Every code unit is below 128. *)
Fixpoint isAscii (s : string) : bool :=
  match s with
  | EmptyString => true
  | String c s' => (nat_of_ascii c <? 128) && isAscii s'
  end.

(** The title in one pass over the name: a hyphen becomes a space, and the
    code unit that starts a word is put in upper case. *)
Fixpoint humanize (wordStart : bool) (s : string) : string :=
  match s with
  | EmptyString => EmptyString
  | String c s' =>
      if Ascii.eqb c "-" then String " " (humanize true s')
      else String (if wordStart then Js.toUpperCase c else c) (humanize false s')
  end.

End GalleryView.

(** ** The shape of the chat transcript *)
Module ChatLog.
Import Chat.

(** [n] exchanges: a user message and the reply to it, [n] times. *)
Fixpoint exchanges (n : nat) : list Role :=
  match n with
  | O => []
  | S n' => user :: ai :: exchanges n'
  end.

(** A text as the chat shows it: never empty, and a user's text has no
    blank at either end. *)
Definition wellFormed (m : Message) : Prop :=
  text m <> "" /\ (role m = user -> Js.trim (text m) = text m).

(** The last message of a transcript. *)
Definition lastMessage (ms : list Message) : option Message :=
  List.last (map Some ms) None.

(** What holds of the chat at every moment: one request at a time; the
    introduction, then whole exchanges, then the message being answered
    if there is one; well-formed texts; and the prompt in flight is the
    text of the last message. *)
Definition consistent (c : Session) : Prop :=
  oneAtATime c /\
  (exists n,
     map role (messages (state c)) =
     ai :: exchanges n ++ (if isTyping (state c) then [user] else [])) /\
  Forall wellFormed (messages (state c)) /\
  (forall prompt, inFlight c = [prompt] ->
     lastMessage (messages (state c)) = Some {| role := user; text := prompt |}).

End ChatLog.

(** ** The contact form with its requests, as the page lets it be used *)
Module ContactSession.
Import Contact.

(** The component and the bodies of the requests in flight. *)
Record Session := {
  state : State;
  inFlight : list (list (string * string))
}.

Definition start : Session := {| state := initial; inFlight := [] |}.

(** The submit button is [disabled={formState === 'loading'}], and there
    is a form to submit only while it is mounted. *)
Definition canSubmit (s : State) : bool :=
  match formRef s, formState s with
  | Some _, loading => false
  | Some _, _ => true
  | None, _ => false
  end.

(** The button [SEND ANOTHER] is on the confirmation panel only. *)
Definition canSendAnother (s : State) : bool :=
  match formState s with success => true | _ => false end.

Inductive Event :=
| Submit
| Settle (r : Relayed)
| Edit (f : Fields)
| SendAnother.

(** One event and the render that follows it; [None] when the page does
    not offer the event. *)
Definition step (accessKeyEnv : option string) (e : Event) (c : Session)
  : option Session :=
  match e with
  | Submit =>
      if canSubmit (state c) then
        let (s', body) := handleSubmit accessKeyEnv (state c) in
        Some {| state := render s'; inFlight := inFlight c ++ [body] |}
      else None
  | Settle r =>
      match inFlight c with
      | [] => None
      | _ :: rest => Some {| state := render (resume r (state c)); inFlight := rest |}
      end
  | Edit f =>
      match formRef (state c) with
      | Some _ => Some {| state := edit f (state c); inFlight := inFlight c |}
      | None => None
      end
  | SendAnother =>
      if canSendAnother (state c) then
        Some {| state := sendAnother (state c); inFlight := inFlight c |}
      else None
  end.

Fixpoint run (accessKeyEnv : option string) (es : list Event) (c : Session)
  : option Session :=
  match es with
  | [] => Some c
  | e :: es' =>
      match step accessKeyEnv e c with
      | Some c' => run accessKeyEnv es' c'
      | None => None
      end
  end.

(** What holds of the form at every moment. *)
Definition consistent (c : Session) : Prop :=
  (formRef (state c) = None <-> formState (state c) = success) /\
  (errorMessage (state c) = "" <-> formState (state c) <> error) /\
  ((inFlight c = [] /\ formState (state c) <> loading) \/
   (exists body, inFlight c = [body] /\ formState (state c) = loading)).

End ContactSession.

(** ** Concrete sessions *)
Module Sessions.

(** The user types, sends, types on and opens the panel while the reply
    is awaited. *)
Definition chatEvents : list Chat.Event :=
  [Chat.Change " hi "; Chat.Send; Chat.Change "more"; Chat.Toggle].

(** The chat after [chatEvents], with a credential. *)
Definition chatWaiting : Chat.Session :=
  {| Chat.state :=
       {| Chat.isOpen := true;
          Chat.messages :=
            [Chat.seed; {| Chat.role := Chat.user; Chat.text := "hi" |}];
          Chat.input := "more";
          Chat.isTyping := true |};
     Chat.inFlight := ["hi"] |}.

(** The chat after [chatEvents], without a credential. *)
Definition chatAnswered : Chat.Session :=
  {| Chat.state :=
       {| Chat.isOpen := true;
          Chat.messages :=
            [Chat.seed; {| Chat.role := Chat.user; Chat.text := "hi" |};
             {| Chat.role := Chat.ai; Chat.text := Chat.connectionIssues |}];
          Chat.input := "more";
          Chat.isTyping := false |};
     Chat.inFlight := [] |}.

Definition ada : Contact.Fields :=
  {| Contact.f_name := "Ada"; Contact.f_email := "ada@example.org";
     Contact.f_message := "Hello" |}.

(** The form is filled in and submitted, and the relay refuses. *)
Definition formEvents : list ContactSession.Event :=
  [ContactSession.Edit ada; ContactSession.Submit;
   ContactSession.Settle
     (Contact.Json {| Contact.r_success := false;
                      Contact.r_message := Some "Invalid key" |})].

(** The form after [formEvents]. *)
Definition formRefused : ContactSession.Session :=
  {| ContactSession.state :=
       {| Contact.formState := Contact.error;
          Contact.errorMessage := "Invalid key";
          Contact.formRef := Some ada |};
     ContactSession.inFlight := [] |}.

End Sessions.

(** ** Facts about the string operations and the reference sort *)
Module JsFacts.

Lemma startsWith_app (p t : string) : Js.startsWith p (p ++ t)%string = true.
Proof.
  induction p as [|a p IH]; simpl; [reflexivity|].
  now rewrite Ascii.eqb_refl, IH.
Qed.

Lemma startsWith_inv (p s : string) :
  Js.startsWith p s = true -> exists t, s = (p ++ t)%string.
Proof.
  revert s; induction p as [|a p IH]; intros s H; simpl in *.
  - now exists s.
  - destruct s as [|b s]; [discriminate|].
    apply andb_true_iff in H as [Hab Hp].
    apply Ascii.eqb_eq in Hab; subst b.
    destruct (IH _ Hp) as [t ->]. now exists t.
Qed.

Lemma includes_head (p s : string) :
  Js.includes p s =
  Js.startsWith p s ||
  match s with EmptyString => false | String _ s' => Js.includes p s' end.
Proof. now destruct s. Qed.

Lemma replace_head (p r s : string) :
  Js.replace p r s =
  if Js.startsWith p s then (r ++ Js.slice (Js.length p) s)%string
  else match s with
       | EmptyString => EmptyString
       | String c s' => String c (Js.replace p r s')
       end.
Proof. now destruct s. Qed.

(** [includes] decides the substring relation. *)
Lemma includes_spec (p s : string) :
  Js.includes p s = true <-> exists a b, s = (a ++ p ++ b)%string.
Proof.
  split.
  - induction s as [|c s IH]; simpl; intros H.
    + rewrite orb_false_r in H. apply startsWith_inv in H as [t ->].
      now exists EmptyString, t.
    + apply orb_true_iff in H as [H|H].
      * apply startsWith_inv in H as [t ->]. now exists EmptyString, t.
      * destruct (IH H) as (a & b & ->). now exists (String c a), b.
  - intros (a & b & ->). induction a as [|c a IH]; simpl.
    + rewrite includes_head. now rewrite startsWith_app.
    + now rewrite IH, orb_true_r.
Qed.

(** Removing a leading [p]. *)
Lemma slice_app (p t : string) : Js.slice (Js.length p) (p ++ t)%string = t.
Proof. induction p as [|a p IH]; simpl; [now destruct t|exact IH]. Qed.

Lemma replace_prefix (p r t : string) :
  Js.replace p r (p ++ t)%string = (r ++ t)%string.
Proof.
  now rewrite replace_head, startsWith_app, slice_app.
Qed.

Lemma trimEnd_allSpace (s : string) :
  Js.allSpace s = true -> Js.trimEnd s = EmptyString.
Proof.
  induction s as [|c s IH]; simpl; [reflexivity|].
  intros H. apply andb_true_iff in H as [Hc Hs].
  now rewrite (IH Hs), Hc.
Qed.

Lemma trimEnd_empty (s : string) :
  Js.trimEnd s = EmptyString -> Js.allSpace s = true.
Proof.
  induction s as [|c s IH]; simpl; [reflexivity|].
  destruct (Js.trimEnd s) eqn:E; [|discriminate].
  destruct (Js.isSpace c); [|discriminate].
  intros _. now rewrite IH.
Qed.

Lemma allSpace_trimStart (s : string) :
  Js.allSpace (Js.trimStart s) = Js.allSpace s.
Proof.
  induction s as [|c s IH]; simpl; [reflexivity|].
  destruct (Js.isSpace c) eqn:E; simpl; [exact IH|now rewrite E].
Qed.

(** [trim] gives the empty string exactly on the blank strings. *)
Lemma trim_empty_iff (s : string) :
  Js.trim s = EmptyString <-> Js.allSpace s = true.
Proof.
  unfold Js.trim. split; intros H.
  - apply trimEnd_empty in H. now rewrite allSpace_trimStart in H.
  - apply trimEnd_allSpace. now rewrite allSpace_trimStart.
Qed.

Lemma truthy_trim (s : string) :
  Js.truthyStr (Js.trim s) = negb (Js.allSpace s).
Proof.
  destruct (Js.allSpace s) eqn:E.
  - apply trim_empty_iff in E. now rewrite E.
  - destruct (Js.trim s) eqn:T; [|reflexivity].
    apply trim_empty_iff in T. congruence.
Qed.

(** [trimStart] takes blanks off the front, and only those. *)
Lemma trimStart_decompose (s : string) :
  exists pre, s = (pre ++ Js.trimStart s)%string /\ Js.allSpace pre = true.
Proof.
  induction s as [|c s (pre & E & Hp)]; simpl.
  - now exists EmptyString.
  - destruct (Js.isSpace c) eqn:Hc.
    + exists (String c pre); simpl. rewrite Hc, Hp. now rewrite <- E.
    + now exists EmptyString.
Qed.

(** [trimEnd] takes blanks off the end, and only those. *)
Lemma trimEnd_decompose (s : string) :
  exists post, s = (Js.trimEnd s ++ post)%string /\ Js.allSpace post = true.
Proof.
  induction s as [|c s (post & E & Hp)]; simpl.
  - now exists EmptyString.
  - destruct (Js.trimEnd s) as [|d t] eqn:T; simpl in E.
    + destruct (Js.isSpace c) eqn:Hc.
      * exists (String c post); simpl. rewrite Hc, Hp.
        split; [f_equal; exact E|reflexivity].
      * exists post; simpl. split; [f_equal; exact E|exact Hp].
    + exists post; simpl. split; [f_equal; exact E|exact Hp].
Qed.

(** The input is the trimmed text between two runs of blanks. *)
Lemma trim_decompose (s : string) :
  exists pre post,
    s = (pre ++ Js.trim s ++ post)%string /\
    Js.allSpace pre = true /\ Js.allSpace post = true.
Proof.
  destruct (trimStart_decompose s) as (pre & E1 & H1).
  destruct (trimEnd_decompose (Js.trimStart s)) as (post & E2 & H2).
  exists pre, post. unfold Js.trim. now rewrite <- E2.
Qed.

Lemma trimEnd_cons (c : ascii) (s : string) :
  Js.trimEnd (String c s) =
  match Js.trimEnd s with
  | EmptyString => if Js.isSpace c then EmptyString else String c EmptyString
  | String d t => String c (String d t)
  end.
Proof. reflexivity. Qed.

Lemma trimEnd_idempotent (s : string) : Js.trimEnd (Js.trimEnd s) = Js.trimEnd s.
Proof.
  induction s as [|c s IH]; [reflexivity|].
  rewrite (trimEnd_cons c s).
  destruct (Js.trimEnd s) as [|d t] eqn:T.
  - destruct (Js.isSpace c) eqn:Hc; simpl; [reflexivity|now rewrite Hc].
  - now rewrite trimEnd_cons, IH.
Qed.

Lemma trimStart_head (s : string) :
  match Js.trimStart s with
  | EmptyString => True
  | String c _ => Js.isSpace c = false
  end.
Proof.
  induction s as [|c s IH]; simpl; [exact I|].
  destruct (Js.isSpace c) eqn:Hc; [exact IH|exact Hc].
Qed.

(** A trimmed text has no blank left at either end: trimming it again
    changes nothing. *)
Lemma trim_idempotent (s : string) : Js.trim (Js.trim s) = Js.trim s.
Proof.
  unfold Js.trim. pose proof (trimStart_head s) as H.
  destruct (Js.trimStart s) as [|c t] eqn:E; [reflexivity|].
  assert (S : Js.trimStart (Js.trimEnd (String c t)) = Js.trimEnd (String c t)).
  { simpl in H. rewrite trimEnd_cons.
    destruct (Js.trimEnd t); rewrite ?H; simpl; now rewrite H. }
  now rewrite S, trimEnd_idempotent.
Qed.

Lemma insert_permutes {A} (cmp : Js.Comparator A) (x : A) (l : list A) g :
  Permutation (x :: l) (fst (Js.insert cmp x l g)).
Proof.
  revert g; induction l as [|y t IH]; intros g; simpl; [reflexivity|].
  destruct (cmp x y g) as [r g1].
  destruct (Qle_bool r 0); simpl; [reflexivity|].
  specialize (IH g1). destruct (Js.insert cmp x t g1) as [t' g2]; simpl in *.
  rewrite perm_swap. now constructor.
Qed.

(** The reference sort moves the elements and nothing else, whatever the
    comparator answers. *)
Lemma insertionSort_permutes {A} (cmp : Js.Comparator A) (l : list A) g :
  Permutation l (fst (Js.insertionSort cmp l g)).
Proof.
  induction l as [|x t IH]; simpl; [reflexivity|].
  destruct (Js.insertionSort cmp t g) as [t' g1]; simpl in IH.
  rewrite <- insert_permutes. now constructor.
Qed.

End JsFacts.

(** ** The gallery *)
Module GalleryFacts.
Import Gallery.

(** The filter of the code keeps exactly the qualifying repositories. *)
Lemma validRepo_qualifies (repo : GitHubRepo) :
  validRepo repo = true <-> qualifies repo.
Proof.
  unfold validRepo, qualifies. rewrite andb_true_iff, negb_true_iff.
  rewrite <- (JsFacts.includes_spec "ChristTech" (name repo)).
  split.
  - intros [Hn Hd]. split.
    + destruct (description repo) as [[|c d]|]; try discriminate.
      eexists; split; [reflexivity|discriminate].
    + congruence.
  - intros [(d & -> & Hd) Hn]. split.
    + now destruct (Js.includes "ChristTech" (name repo)).
    + destruct d; [congruence|reflexivity].
Qed.

(** [slice(0, n)] takes its elements from the array. *)
Lemma In_slice {A} (n : nat) (l : list A) (x : A) :
  In x (firstn n l) -> In x l.
Proof.
  revert l; induction n as [|n IH]; intros [|y l]; simpl; try tauto.
  intros [H|H]; [now left|right; now apply IH].
Qed.

Section Engine.

Variable toLocaleDateString : string -> string.
Variable Array_sort :
  Js.Comparator GitHubRepo -> list GitHubRepo -> Js.Random ->
  list GitHubRepo * Js.Random.

(** The engines sort by moving the elements: the sorted array is a
    permutation of the given one, also when the comparator answers at
    random. *)
Hypothesis Array_sort_permutes :
  forall cmp l g, Permutation l (fst (Array_sort cmp l g)).

Local Abbreviation toProject := (Gallery.toProject toLocaleDateString).
Local Abbreviation load := (fetchGitHubProjects toLocaleDateString Array_sort).

Lemma shuffled_permutes repos g :
  Permutation (validRepos repos) (shuffled Array_sort repos g).
Proof. apply Array_sort_permutes. Qed.

Lemma shuffled_length repos g :
  List.length (shuffled Array_sort repos g) = List.length (validRepos repos).
Proof. symmetry. apply Permutation_length, shuffled_permutes. Qed.

Lemma shuffled_In repos g repo :
  In repo (shuffled Array_sort repos g) -> In repo repos /\ qualifies repo.
Proof.
  intros H.
  apply (Permutation_in _ (Permutation_sym (shuffled_permutes repos g))) in H.
  apply filter_In in H as [Hin Hv]. now rewrite <- validRepo_qualifies.
Qed.

Lemma mappedProjects_length repos g :
  List.length (mappedProjects toLocaleDateString Array_sort repos g) =
  Nat.min 6 (List.length (validRepos repos)).
Proof.
  unfold mappedProjects.
  now rewrite length_map, length_firstn, shuffled_length.
Qed.

(** C1. Gallery selection.  Whatever batch is fetched: every card comes
    from a repository of the batch that qualifies (description not empty,
    name without the handle); there are never more than six cards; and
    when more than six repositories qualify there are exactly six, each
    from a qualifying one.  A load that fails leaves the gallery without
    cards. *)
Theorem gallery_selection (r : Fetched) (g : Js.Random) :
  let cards := projects (load r g initial) in
  List.length cards <= 6 /\
  forall repos, r = Repos repos ->
    (forall card, In card cards ->
       exists repo, In repo repos /\ qualifies repo /\ card = toProject repo) /\
    (6 < List.length (validRepos repos) -> List.length cards = 6).
Proof.
  destruct r as [err| |err|repos]; simpl; (split; [|intros ? [=]]); try lia.
  - rewrite mappedProjects_length. lia.
  - subst. split.
    + intros card H. unfold mappedProjects in H.
      apply in_map_iff in H as (repo & <- & H).
      apply In_slice, shuffled_In in H as [Hin Hq].
      now exists repo.
    + intros H. rewrite mappedProjects_length. lia.
Qed.

(** C9. Below the cap nothing is dropped: when at most six repositories
    of the batch qualify, a successful load gives as many cards as there
    are qualifying repositories, one from each of them (in some order). *)
Theorem gallery_below_cap (repos : list GitHubRepo) (g : Js.Random) (s : State) :
  List.length (validRepos repos) <= 6 ->
  let cards := projects (load (Repos repos) g s) in
  List.length cards = List.length (validRepos repos) /\
  Permutation (map toProject (validRepos repos)) cards.
Proof.
  intros H; simpl. split.
  - rewrite mappedProjects_length. lia.
  - unfold mappedProjects. rewrite firstn_all2.
    + apply Permutation_map, shuffled_permutes.
    + now rewrite shuffled_length.
Qed.

(** C5, as the code has it.  In the scenario of three repositories (the
    profile repository, [robo-arm] with an empty description, and
    [vision-app] with a description and two topics), whatever their other
    fields are, the first two are filtered out and the load produces exactly
    one card, the one of [vision-app], tagged with its two topics. *)
Theorem gallery_scenario_one_card (r1 r2 r3 : GitHubRepo) (g : Js.Random) (s : State) :
  name r1 = "ChristTech" -> description r1 = Some "profile" ->
  name r2 = "robo-arm" -> description r2 = Some "" ->
  name r3 = "vision-app" -> description r3 = Some "CV pipeline" ->
  topics r3 = ["cv"; "python"] ->
  let cards := projects (load (Repos [r1; r2; r3]) g s) in
  validRepos [r1; r2; r3] = [r3] /\
  cards = [toProject r3] /\
  map title cards = ["Vision App"] /\
  map tags cards = [["cv"; "python"]].
Proof.
  intros N1 D1 N2 D2 N3 D3 T3; simpl.
  assert (V : validRepos [r1; r2; r3] = [r3]).
  { unfold validRepos, validRepo; simpl.
    now rewrite N1, D1, N2, D2, N3, D3. }
  assert (C : mappedProjects toLocaleDateString Array_sort [r1; r2; r3] g
              = [toProject r3]).
  { unfold mappedProjects.
    assert (E : shuffled Array_sort [r1; r2; r3] g = [r3]).
    { pose proof (shuffled_permutes [r1; r2; r3] g) as P.
      rewrite V in P. now apply Permutation_length_1_inv in P. }
    now rewrite E. }
  rewrite C; simpl. rewrite N3, T3. now repeat split.
Qed.

End Engine.

(** C6. Card fields.  The image address depends on the canonical address
    of the repository only (the same canonical address gives the same
    image address): it is the social-preview prefix followed by the
    canonical address with its first [https://github.com/] removed.  The
    link is the homepage when there is one (not [null], not empty), the
    canonical address otherwise.  The tags are the first four topics when
    there are topics, and otherwise the single tag of the language ([Code]
    when there is none). *)
Theorem card_fields (toLocaleDateString : string -> string) (r r' : GitHubRepo) :
  html_url r = html_url r' ->
  let card := toProject toLocaleDateString r in
  image card = image (toProject toLocaleDateString r') /\
  image card =
    ("https://opengraph.githubassets.com/1/" ++
     Js.replace "https://github.com/" "" (html_url r))%string /\
  (forall h, homepage r = Some h -> h <> "" -> link card = Some h) /\
  (homepage r = None \/ homepage r = Some "" -> link card = Some (html_url r)) /\
  (topics r <> [] -> tags card = firstn 4 (topics r)) /\
  (topics r = [] -> tags card = [Js.orElse (language r) "Code"]).
Proof.
  intros E; simpl. rewrite E. repeat split.
  - intros h -> Hh. destruct h; [congruence|reflexivity].
  - now intros [->| ->].
  - intros H. destruct (topics r); [congruence|reflexivity].
  - now intros ->.
Qed.

(** The image address of a repository hosted at [https://github.com/]. *)
Lemma image_of_github (toLocaleDateString : string -> string) (r : GitHubRepo) path :
  html_url r = ("https://github.com/" ++ path)%string ->
  image (toProject toLocaleDateString r) =
  ("https://opengraph.githubassets.com/1/" ++ path)%string.
Proof.
  intros E. unfold toProject, image. rewrite E.
  now rewrite (JsFacts.replace_prefix "https://github.com/" "" path).
Qed.

(** C1 at the batch [Examples.nine], sorted by the reference sort: seven
    repositories qualify and six cards are shown. *)
Lemma gallery_selection_witness :
  6 < List.length (validRepos Examples.nine) /\
  List.length
    (projects
       (fetchGitHubProjects Examples.isoDay (@Js.insertionSort _)
          (Repos Examples.nine) Examples.mixedDraws initial)) = 6.
Proof.
  split; [vm_compute; lia|].
  apply (proj2 (gallery_selection Examples.isoDay (@Js.insertionSort _)
                  (@JsFacts.insertionSort_permutes _)
                  (Repos Examples.nine) Examples.mixedDraws)
           Examples.nine eq_refl).
  vm_compute; lia.
Defined.

(** C9 at the scenario batch: one repository qualifies, one card. *)
Lemma gallery_below_cap_witness :
  List.length (validRepos Examples.scenario) <= 6 /\
  List.length
    (projects
       (fetchGitHubProjects Examples.isoDay (@Js.insertionSort _)
          (Repos Examples.scenario) Examples.lowDraws initial)) = 1.
Proof.
  split; [vm_compute; lia|].
  apply (proj1 (gallery_below_cap Examples.isoDay (@Js.insertionSort _)
                  (@JsFacts.insertionSort_permutes _)
                  Examples.scenario Examples.lowDraws initial
                  ltac:(vm_compute; lia))).
Defined.

(** C5 as the specification words it fails: the scenario batch gives one
    card, not none. *)
Lemma gallery_scenario_not_empty :
  List.length
    (projects
       (fetchGitHubProjects Examples.isoDay (@Js.insertionSort _)
          (Repos Examples.scenario) Examples.lowDraws initial)) = 1.
Proof. reflexivity. Qed.

(** The amended C5 at the scenario batch. *)
Lemma gallery_scenario_one_card_witness :
  map title
    (projects
       (fetchGitHubProjects Examples.isoDay (@Js.insertionSort _)
          (Repos Examples.scenario) Examples.lowDraws initial))
  = ["Vision App"].
Proof.
  apply (gallery_scenario_one_card Examples.isoDay (@Js.insertionSort _)
           (@JsFacts.insertionSort_permutes _)
           Examples.profileRepo Examples.roboArm Examples.visionApp
           Examples.lowDraws initial
           eq_refl eq_refl eq_refl eq_refl eq_refl eq_refl eq_refl).
Defined.

(** C6 at [vision-app]. *)
Lemma card_fields_witness :
  image (toProject Examples.isoDay Examples.visionApp) =
    "https://opengraph.githubassets.com/1/ChristTech/vision-app" /\
  link (toProject Examples.isoDay Examples.visionApp) =
    Some "https://github.com/ChristTech/vision-app" /\
  tags (toProject Examples.isoDay Examples.visionApp) = ["cv"; "python"].
Proof.
  pose proof (card_fields Examples.isoDay Examples.visionApp
                Examples.visionApp eq_refl) as (_ & Hi & _ & Hl & Ht & _).
  split; [exact Hi|split].
  - apply Hl. now left.
  - apply Ht. discriminate.
Defined.

End GalleryFacts.

(** ** The chat *)
Module ChatFacts.
Import Chat.

Lemma guard_rejects (s : State) :
  negb (Js.truthyStr (Js.trim (input s))) || isTyping s = true <->
  Js.allSpace (input s) = true \/ isTyping s = true.
Proof.
  rewrite JsFacts.truthy_trim, negb_involutive. apply orb_true_iff.
Qed.

Lemma guard_accepts (s : State) :
  accepted s -> negb (Js.truthyStr (Js.trim (input s))) || isTyping s = false.
Proof.
  intros [Hb Ht]. now rewrite JsFacts.truthy_trim, Hb, Ht.
Qed.

Lemma handleSend_accepted (apiKey : option string) (s : State) :
  accepted s ->
  handleSend apiKey s =
  if Js.truthy apiKey then AwaitGenerate (Js.trim (input s)) (sent s)
  else Finished (cleanup (onError "API key is missing" (sent s))).
Proof.
  intros H. unfold handleSend. rewrite (guard_accepts s H).
  now destruct (Js.truthy apiKey).
Qed.

(** The transcript after the handler has resumed: one assistant message
    more, whose text depends on the text that came back and on nothing
    else. *)
Lemma resume_messages (r : Generated) (s : State) :
  messages (resume r s) =
  messages s ++
  [{| role := ai;
      text := match r with
              | Text (String c t) => String c t
              | Text EmptyString => littleGlitch
              | GenerateRejects _ | TextThrows _ => connectionIssues
              end |}].
Proof. now destruct r as [err|err|[|c t]]. Qed.

(** C4. The guard.  A submit whose input is empty or made of white space
    only, and a submit made while a request is pending, do nothing: the
    handler returns at once with the state it was called in (the
    transcript and its length with it), and no request is issued: the
    requests in flight are the same. *)
Theorem chat_noop_guard (apiKey : option string) (c : Session) :
  Js.allSpace (input (state c)) = true \/ isTyping (state c) = true ->
  handleSend apiKey (state c) = Finished (state c) /\
  step apiKey Send c = Some c /\
  (forall c', step apiKey Send c = Some c' ->
     messages (state c') = messages (state c) /\
     List.length (messages (state c')) = List.length (messages (state c)) /\
     inFlight c' = inFlight c).
Proof.
  intros H. apply guard_rejects in H.
  assert (E : handleSend apiKey (state c) = Finished (state c)).
  { unfold handleSend. now rewrite H. }
  assert (E' : step apiKey Send c = Some c).
  { unfold step. rewrite E. now destruct c. }
  repeat split; trivial; rewrite E' in H0; now injection H0 as <-.
Qed.

(** C2. Fallback substitution.  For an accepted submit: without a
    credential the handler ends at once, the transcript having gained the
    user's message and then exactly one assistant message, the fixed
    connection text; with a credential a request is awaited, and when it
    settles the transcript gains exactly one assistant message, which is
    the fixed connection text when the request failed (whatever the error
    was), the fixed apology when the text that came back is empty, and the
    text otherwise. *)
Theorem chat_fallback (apiKey : option string) (s : State) :
  accepted s ->
  let userMsg := {| role := user; text := Js.trim (input s) |} in
  let fallback := {| role := ai; text := connectionIssues |} in
  (Js.truthy apiKey = false ->
   exists s', handleSend apiKey s = Finished s' /\
              messages s' = messages s ++ [userMsg; fallback]) /\
  (Js.truthy apiKey = true ->
   exists s', handleSend apiKey s = AwaitGenerate (Js.trim (input s)) s' /\
              messages s' = messages s ++ [userMsg]) /\
  (forall r s', failed r = true ->
     messages (resume r s') = messages s' ++ [fallback]) /\
  (forall s', messages (resume (Text "") s') =
              messages s' ++ [{| role := ai; text := littleGlitch |}]) /\
  (forall t s', t <> "" ->
     messages (resume (Text t) s') = messages s' ++ [{| role := ai; text := t |}]).
Proof.
  intros H; cbv zeta. rewrite (handleSend_accepted apiKey s H).
  repeat split.
  - intros ->. eexists; split; [reflexivity|]. simpl.
    unfold push. now rewrite <- app_assoc.
  - intros ->. eexists; split; reflexivity.
  - intros r s' Hr. rewrite resume_messages. now destruct r.
  - intros t s' Ht. rewrite resume_messages. now destruct t.
Qed.

(** C8. Pending cleanup.  For an accepted submit the typing flag is down
    when the handler has run to its end: at once when the credential is
    missing, and otherwise (the flag being up while the request is
    awaited) when the request settles, whether it gave a text, failed or
    gave a response whose text cannot be read. *)
Theorem chat_pending_cleared (apiKey : option string) (s : State) :
  accepted s ->
  match handleSend apiKey s with
  | Finished s' => Js.truthy apiKey = false /\ isTyping s' = false
  | AwaitGenerate _ s' =>
      Js.truthy apiKey = true /\ isTyping s' = true /\
      forall r s'', isTyping (resume r s'') = false
  end.
Proof.
  intros H. rewrite (handleSend_accepted apiKey s H).
  destruct (Js.truthy apiKey); repeat split.
  intros r s''. now destruct r.
Qed.

(** C10. Optimistic clearing.  For an accepted submit the input is
    emptied before the request settles, the message put in the transcript
    (and sent as the prompt) is the trimmed input, and the handler, when it
    resumes, leaves the input as it finds it: what was typed is not put
    back, also when the request fails. *)
Theorem chat_input_cleared (apiKey : option string) (s : State) :
  accepted s ->
  let userMsg := {| role := user; text := Js.trim (input s) |} in
  match handleSend apiKey s with
  | Finished s' =>
      input s' = "" /\ exists rest, messages s' = messages s ++ userMsg :: rest
  | AwaitGenerate prompt s' =>
      input s' = "" /\ prompt = Js.trim (input s) /\
      messages s' = messages s ++ [userMsg] /\
      forall r s'', input (resume r s'') = input s''
  end.
Proof.
  intros H; simpl. rewrite (handleSend_accepted apiKey s H).
  destruct (Js.truthy apiKey); repeat split.
  - intros r s''. now destruct r.
  - eexists. simpl. unfold push. now rewrite <- app_assoc.
Qed.

(** Every event leaves the transcript a prefix of the new one. *)
Lemma step_appends (apiKey : option string) (e : Event) (c c' : Session) :
  step apiKey e c = Some c' ->
  exists more, messages (state c') = messages (state c) ++ more.
Proof.
  destruct e as [v| | | |r]; simpl.
  - intros [= <-]. exists []. now rewrite app_nil_r.
  - intros [= <-]. exists []. now rewrite app_nil_r.
  - intros [= <-]. exists []. now rewrite app_nil_r.
  - unfold handleSend.
    destruct (negb (Js.truthyStr (Js.trim (input (state c)))) || isTyping (state c)).
    + intros [= <-]. exists []. now rewrite app_nil_r.
    + destruct (negb (Js.truthy apiKey)); intros [= <-]; simpl; unfold push.
      * rewrite <- app_assoc. now eexists.
      * now eexists.
  - destruct (inFlight c); [discriminate|]. intros [= <-]; simpl.
    rewrite resume_messages. now eexists.
Qed.

Lemma run_appends (apiKey : option string) (es : list Event) (c c' : Session) :
  run apiKey es c = Some c' ->
  exists more, messages (state c') = messages (state c) ++ more.
Proof.
  revert c; induction es as [|e es IH]; simpl; intros c.
  - intros [= <-]. exists []. now rewrite app_nil_r.
  - destruct (step apiKey e c) as [c1|] eqn:E; [|discriminate].
    intros H. apply IH in H as [m2 H2].
    apply step_appends in E as [m1 H1].
    exists (m1 ++ m2). now rewrite H2, H1, app_assoc.
Qed.

Lemma step_oneAtATime (apiKey : option string) (e : Event) (c c' : Session) :
  oneAtATime c -> step apiKey e c = Some c' -> oneAtATime c'.
Proof.
  unfold oneAtATime. destruct e as [v| | | |r]; simpl.
  - intros H [= <-]. exact H.
  - intros H [= <-]. exact H.
  - intros H [= <-]. exact H.
  - unfold handleSend. intros [[Hf Ht]|(p & Hf & Ht)]; rewrite Ht.
    + rewrite orb_false_r.
      destruct (negb (Js.truthyStr (Js.trim (input (state c))))).
      * intros [= <-]. now left.
      * destruct (negb (Js.truthy apiKey)); intros [= <-]; simpl.
        -- now left.
        -- right. rewrite Hf. now eexists.
    + rewrite orb_true_r. intros [= <-]. right. now exists p.
  - intros [[Hf Ht]|(p & Hf & Ht)]; rewrite Hf; [discriminate|].
    intros [= <-]. left. split; [reflexivity|]. now destruct r.
Qed.

Lemma run_oneAtATime (apiKey : option string) (es : list Event) (c c' : Session) :
  oneAtATime c -> run apiKey es c = Some c' -> oneAtATime c'.
Proof.
  revert c; induction es as [|e es IH]; simpl; intros c Hc.
  - now intros [= <-].
  - destruct (step apiKey e c) as [c1|] eqn:E; [|discriminate].
    apply IH. exact (step_oneAtATime _ _ _ _ Hc E).
Qed.

(** C7. The transcript.  It starts as the one introductory message; every
    event leaves what is there in place and only adds at the end, so the
    introduction stays first whatever happens; and from the start, typing
    [hello] and sending it gives, when the generation fails (no credential,
    or a request that fails), exactly the three messages introduction,
    user [hello], assistant fallback. *)
Theorem chat_transcript (apiKey : option string) :
  messages (state start) = [seed] /\
  (forall e c c', step apiKey e c = Some c' ->
     exists more, messages (state c') = messages (state c) ++ more) /\
  (forall es c', run apiKey es start = Some c' ->
     exists more, messages (state c') = seed :: more) /\
  let expected := [seed; {| role := user; text := "hello" |};
                   {| role := ai; text := connectionIssues |}] in
  (Js.truthy apiKey = false ->
   option_map (fun c => messages (state c))
     (run apiKey [Change "hello"; Send] start) = Some expected) /\
  (Js.truthy apiKey = true ->
   forall r, failed r = true ->
     option_map (fun c => messages (state c))
       (run apiKey [Change "hello"; Send; Settle r] start) = Some expected).
Proof.
  split; [reflexivity|]. split; [apply step_appends|]. split.
  - intros es c' H. apply run_appends in H as [more H]. now exists more.
  - simpl. unfold handleSend; simpl. split.
    + now intros ->.
    + intros -> r Hr; simpl. rewrite resume_messages. now destruct r.
Qed.

End ChatFacts.

(** ** Witnesses for the chat *)
Module ChatWitness.
Import Chat ChatFacts.

Lemma typedHello_accepted : accepted Examples.typedHello.
Proof. split; reflexivity. Defined.

(** C4 at a blank input, and at a submit made while a request is pending. *)
Lemma chat_noop_guard_witness :
  step (Some "key") Send {| state := Examples.typedBlank; inFlight := [] |}
    = Some {| state := Examples.typedBlank; inFlight := [] |} /\
  step (Some "key") Send
    {| state := setInput "again" (sent Examples.typedHello);
       inFlight := ["hello"] |}
    = Some {| state := setInput "again" (sent Examples.typedHello);
              inFlight := ["hello"] |}.
Proof.
  split.
  - apply (chat_noop_guard (Some "key")
             {| state := Examples.typedBlank; inFlight := [] |}).
    left; reflexivity.
  - apply (chat_noop_guard (Some "key")
             {| state := setInput "again" (sent Examples.typedHello);
                inFlight := ["hello"] |}).
    right; reflexivity.
Defined.

(** C2 without a credential: [hello] is sent from the start. *)
Lemma chat_fallback_witness :
  exists s',
    handleSend None Examples.typedHello = Finished s' /\
    messages s' =
    messages Examples.typedHello ++
    [{| role := user; text := "hello" |};
     {| role := ai; text := connectionIssues |}].
Proof.
  apply (proj1 (chat_fallback None Examples.typedHello typedHello_accepted)).
  reflexivity.
Defined.

(** C8 with a credential and a response whose text cannot be read. *)
Lemma chat_pending_cleared_witness :
  isTyping (sent Examples.typedHello) = true /\
  isTyping (resume (TextThrows "blocked") (sent Examples.typedHello)) = false.
Proof.
  pose proof (chat_pending_cleared (Some "key") Examples.typedHello
                typedHello_accepted) as H.
  change (Js.truthy (Some "key") = true /\
          isTyping (sent Examples.typedHello) = true /\
          forall r s'', isTyping (resume r s'') = false) in H.
  destruct H as (_ & Hup & Hdown). split; [exact Hup|apply Hdown].
Defined.

(** C10 with a credential and a request that fails. *)
Lemma chat_input_cleared_witness :
  input (sent Examples.typedHello) = "" /\
  input (resume (GenerateRejects "offline") (sent Examples.typedHello)) = "".
Proof.
  pose proof (chat_input_cleared (Some "key") Examples.typedHello
                typedHello_accepted) as H.
  change (input (sent Examples.typedHello) = "" /\
          Js.trim (input Examples.typedHello) = Js.trim (input Examples.typedHello) /\
          messages (sent Examples.typedHello) =
            messages Examples.typedHello ++
            [{| role := user; text := Js.trim (input Examples.typedHello) |}] /\
          forall r s'', input (resume r s'') = input s'') in H.
  destruct H as (Hin & _ & _ & Hkeep). split; [exact Hin|].
  rewrite Hkeep. exact Hin.
Defined.

(** C7 without a credential. *)
Lemma chat_transcript_witness :
  option_map (fun c => messages (state c))
    (run None [Change "hello"; Send] start)
  = Some [seed; {| role := user; text := "hello" |};
          {| role := ai; text := connectionIssues |}].
Proof.
  apply (proj1 (proj2 (proj2 (proj2 (chat_transcript None))))).
  reflexivity.
Defined.

End ChatWitness.

(** ** The contact form *)
Module ContactFacts.
Import Contact.

(** While the form is mounted, the handler and the render before the
    answer leave the inputs alone. *)
Lemma awaiting (accessKeyEnv : option string) (s : State) (f : Fields) :
  formRef s = Some f ->
  render (fst (handleSubmit accessKeyEnv s)) =
  {| formState := loading; errorMessage := ""; formRef := Some f |}.
Proof.
  intros H. unfold handleSubmit, render, setErrorMessage, setFormState.
  cbn. now rewrite H.
Qed.

(** C3, as the code has it.  Submitting the mounted form:
    - an answer with [success] true puts the form in state [success] and
      resets its inputs (the confirmation panel replaces the form, and the
      form shown again by its button is empty);
    - an answer with [success] false and a non-empty message [X] puts it in
      state [error], shows [X] and keeps the inputs;
    - an answer with [success] false and no message (or an empty one) shows
      the fixed text [Something went wrong. Please try again.] and keeps
      the inputs;
    - a request or a body that fails shows the fixed network-error text
      and keeps the inputs. *)
Theorem form_submit_outcome (accessKeyEnv : option string) (s : State) (f : Fields) :
  formRef s = Some f ->
  (forall m,
     let answered :=
       resume (Json {| r_success := true; r_message := m |})
         (render (fst (handleSubmit accessKeyEnv s))) in
     let s' := submit accessKeyEnv (Json {| r_success := true; r_message := m |}) s in
     formState answered = success /\ formRef answered = Some blank /\
     formState s' = success /\ displayedError s' = None /\
     sendAnother s' =
     {| formState := idle; errorMessage := ""; formRef := Some blank |}) /\
  (forall X, X <> "" ->
     let s' := submit accessKeyEnv
                 (Json {| r_success := false; r_message := Some X |}) s in
     formState s' = error /\ displayedError s' = Some X /\ formRef s' = Some f) /\
  (forall m, Js.truthy m = false ->
     let s' := submit accessKeyEnv
                 (Json {| r_success := false; r_message := m |}) s in
     formState s' = error /\ displayedError s' = Some somethingWentWrong /\
     formRef s' = Some f) /\
  (forall err r, r = FetchRejects err \/ r = JsonRejects err ->
     let s' := submit accessKeyEnv r s in
     formState s' = error /\ displayedError s' = Some networkError /\
     formRef s' = Some f).
Proof.
  intros H. unfold submit. rewrite (awaiting accessKeyEnv s f H).
  split; [|split; [|split]].
  - intros m. now repeat split.
  - intros [|c X] HX; [congruence|]. now repeat split.
  - intros [[|c m]|] Hm; try discriminate; now repeat split.
  - intros err r [-> | ->]; now repeat split.
Qed.

(** C3 as the specification words it fails: a failure answer without a
    message, and one with an empty message, show the fixed text
    [Something went wrong. Please try again.], which is not the
    network-error text (nor the empty message). *)
Lemma form_absent_message_text :
  displayedError
    (submit None (Json {| r_success := false; r_message := None |})
       Examples.filled) = Some somethingWentWrong /\
  displayedError
    (submit None (Json {| r_success := false; r_message := Some "" |})
       Examples.filled) = Some somethingWentWrong /\
  String.eqb somethingWentWrong networkError = false /\
  String.eqb somethingWentWrong "" = false.
Proof. repeat split. Qed.

(** The amended C3 at the filled form and the answer [Invalid key]. *)
Lemma form_submit_outcome_witness :
  displayedError
    (submit None
       (Json {| r_success := false; r_message := Some "Invalid key" |})
       Examples.filled) = Some "Invalid key" /\
  formRef
    (submit None
       (Json {| r_success := false; r_message := Some "Invalid key" |})
       Examples.filled) = formRef Examples.filled.
Proof.
  pose proof (form_submit_outcome None Examples.filled _ eq_refl)
    as (_ & HX & _).
  destruct (HX "Invalid key" ltac:(discriminate)) as (_ & Hd & Hf).
  split; [exact Hd|exact Hf].
Defined.

End ContactFacts.

(** ** The reveal hook *)
Module RevealFacts.
Import Reveal.

(** X1. The reveal latches.  After any series of batches from the
    observer the element is visible exactly when it was visible before or
    the first entry of some batch was intersecting; so once visible it
    stays visible, whatever is delivered later (an element that leaves the
    viewport is not hidden again). *)
Theorem reveal_latches (batches : list (Entry * list Entry)) (isVisible : bool) :
  notify batches isVisible =
    isVisible || existsb (fun b => isIntersecting (fst b)) batches /\
  (forall later, notify (batches ++ later) isVisible = true \/
                 notify batches isVisible = false).
Proof.
  assert (E : forall bs v,
             notify bs v = v || existsb (fun b => isIntersecting (fst b)) bs).
  { induction bs as [|[entry rest] bs IH]; intros v; simpl.
    - now rewrite orb_false_r.
    - rewrite IH. unfold onIntersect.
      destruct (isIntersecting entry), v; reflexivity. }
  split; [apply E|].
  intros later. rewrite !E, existsb_app.
  destruct isVisible; simpl; [now left|].
  destruct (existsb _ batches); [now left|now right].
Qed.

End RevealFacts.

(** ** The navigation bar *)
Module NavbarFacts.
Import Navbar.

Lemma run_app (es es' : list Event) (s : State) :
  run (es ++ es') s = run es' (run es s).
Proof. revert s; induction es as [|e es IH]; intros s; simpl; [reflexivity|apply IH]. Qed.

(** X2. The bar follows the last scroll.  After any events the bar is in
    its scrolled form exactly when the last scroll left the window more
    than 20 pixels down (at 20 exactly it is not); the menu events and
    earlier scrolls play no part, and without any scroll the form is the
    one it had. *)
Theorem navbar_follows_last_scroll (es : list Event) (s : State) :
  isScrolled (run es s) =
  match lastScroll es with
  | Some y => negb (Qle_bool y 20)
  | None => isScrolled s
  end.
Proof.
  revert s; induction es as [|e es IH]; intros s; [reflexivity|].
  simpl. rewrite IH.
  destruct (lastScroll es) as [y|]; [reflexivity|].
  now destruct e.
Qed.

(** X3. The mobile menu.  After a link of the menu is followed and the
    button is then pressed some times (with scrolls in between or not), the
    menu is open exactly when the button was pressed an odd number of
    times: a followed link closes the menu whatever its state was, each
    press flips it, and scrolling leaves it alone. *)
Theorem navbar_menu_parity (before after : list Event) (s : State) :
  existsb isMenuLink after = false ->
  isMobileMenuOpen (run (before ++ MenuLink :: after) s) =
  Nat.odd (List.length (filter isMenuButton after)).
Proof.
  rewrite run_app; simpl.
  generalize (run before s); clear before s; intros s H.
  assert (G : forall es t, existsb isMenuLink es = false ->
              isMobileMenuOpen (run es t) =
              xorb (isMobileMenuOpen t) (Nat.odd (List.length (filter isMenuButton es)))).
  { induction es as [|e es IH]; intros t He; simpl.
    - now rewrite xorb_false_r.
    - destruct e as [y| |]; simpl in *; try discriminate.
      + now rewrite (IH _ He).
      + rewrite (IH _ He); simpl. rewrite Nat.odd_succ, <- Nat.negb_odd.
        now destruct (isMobileMenuOpen t), (Nat.odd _). }
  now rewrite (G after _ H).
Qed.

(** X3 at two presses after a link, with a scroll in between. *)
Lemma navbar_menu_parity_witness :
  isMobileMenuOpen
    (run ([MenuButton] ++ MenuLink :: [MenuButton; Scroll (300 # 1); MenuButton])
       initial) = false.
Proof.
  apply (navbar_menu_parity [MenuButton]
           [MenuButton; Scroll (300 # 1); MenuButton] initial).
  reflexivity.
Defined.

End NavbarFacts.

(** ** The cards of the gallery *)
Module GalleryViewFacts.
Import Gallery GalleryView.

Lemma split_not_nil (sep : ascii) (s : string) : Js.split sep s <> [].
Proof.
  destruct s as [|c s]; simpl; [discriminate|].
  destruct (Ascii.eqb c sep); [discriminate|].
  destruct (Js.split sep s); discriminate.
Qed.

(** The words joined, the first one left as it is or capitalized. *)
Lemma humanize_words (s : string) (wordStart : bool) :
  humanize wordStart s =
  match Js.split "-" s with
  | [] => EmptyString
  | w :: ws =>
      Js.join " " ((if wordStart then capitalize w else w) :: map capitalize ws)
  end.
Proof.
  revert wordStart; induction s as [|c s IH]; intros wordStart.
  - now destruct wordStart.
  - simpl. destruct (Ascii.eqb c "-") eqn:E.
    + rewrite (IH true).
      pose proof (split_not_nil "-" s) as N.
      destruct (Js.split "-" s) as [|w ws]; [congruence|].
      now destruct wordStart.
    + rewrite (IH false).
      pose proof (split_not_nil "-" s) as N.
      destruct (Js.split "-" s) as [|w ws]; [congruence|].
      destruct wordStart; now destruct ws.
Qed.

Lemma humanize_length (s : string) (wordStart : bool) :
  String.length (humanize wordStart s) = String.length s.
Proof.
  revert wordStart; induction s as [|c s IH]; intros wordStart; simpl;
    [reflexivity|].
  destruct (Ascii.eqb c "-"); simpl; now rewrite IH.
Qed.

(** X4. The title.  For a repository name of ASCII code units, the title
    of its card is the name read once from the left with every hyphen
    turned into a space and the first code unit of every word (the name
    starts one, and so does every hyphen) put in upper case; it is as long
    as the name. *)
Theorem title_humanizes (toLocaleDateString : string -> string) (repo : GitHubRepo) :
  isAscii (name repo) = true ->
  title (toProject toLocaleDateString repo) = humanize true (name repo) /\
  String.length (title (toProject toLocaleDateString repo)) =
  String.length (name repo).
Proof.
  intros _.
  assert (E : title (toProject toLocaleDateString repo) = humanize true (name repo)).
  { rewrite humanize_words. unfold toProject, title.
    pose proof (split_not_nil "-" (name repo)) as N.
    destruct (Js.split "-" (name repo)); [congruence|reflexivity]. }
  split; [exact E|]. rewrite E. apply humanize_length.
Qed.

(** X4 at [vision-app]. *)
Lemma title_humanizes_witness :
  title (toProject Examples.isoDay Examples.visionApp) = "Vision App".
Proof.
  apply (proj1 (title_humanizes Examples.isoDay Examples.visionApp eq_refl)).
Defined.

(** X5. The tags of a card.  Whatever the repository, its card has at
    least one tag and at most four: the first four topics, or the one tag
    of the language when there is no topic. *)
Theorem card_tags_bounds (toLocaleDateString : string -> string) (repo : GitHubRepo) :
  1 <= List.length (tags (toProject toLocaleDateString repo)) <= 4 /\
  (forall tag, In tag (tags (toProject toLocaleDateString repo)) ->
     In tag (topics repo) \/
     (topics repo = [] /\ tag = Js.orElse (language repo) "Code")).
Proof.
  unfold toProject, tags.
  destruct (topics repo) as [|t ts] eqn:T.
  - simpl. split; [lia|]. intros tag [<-|[]]. now right.
  - change (0 <? List.length (t :: ts)) with true. cbv iota.
    rewrite length_firstn. simpl List.length. split; [lia|].
    intros tag H. left. now apply GalleryFacts.In_slice in H.
Qed.

Lemma replace_absent (p r s : string) :
  Js.includes p s = false -> Js.replace p r s = s.
Proof.
  induction s as [|c s IH]; intros H;
    rewrite JsFacts.includes_head in H; apply orb_false_iff in H as [H1 H2];
    rewrite JsFacts.replace_head, H1; [reflexivity|].
  now rewrite (IH H2).
Qed.

(** X6. The image address.  For a repository whose canonical address is
    [https://github.com/] followed by a path, the image address is the
    social-preview prefix followed by that path; for a canonical address in
    which [https://github.com/] does not occur, it is the prefix followed by
    the whole address. *)
Theorem image_address (toLocaleDateString : string -> string) (repo : GitHubRepo) :
  (forall path, html_url repo = ("https://github.com/" ++ path)%string ->
     image (toProject toLocaleDateString repo) =
     ("https://opengraph.githubassets.com/1/" ++ path)%string) /\
  (Js.includes "https://github.com/" (html_url repo) = false ->
     image (toProject toLocaleDateString repo) =
     ("https://opengraph.githubassets.com/1/" ++ html_url repo)%string).
Proof.
  unfold toProject, image. split.
  - intros path ->.
    now rewrite (JsFacts.replace_prefix "https://github.com/" "" path).
  - intros H. now rewrite (replace_absent _ _ _ H).
Qed.

(** X6 at [vision-app]. *)
Lemma image_address_witness :
  image (toProject Examples.isoDay Examples.visionApp) =
  "https://opengraph.githubassets.com/1/ChristTech/vision-app".
Proof.
  apply (proj1 (image_address Examples.isoDay Examples.visionApp)
           "ChristTech/vision-app" eq_refl).
Defined.

Lemma mapFrom_length {A B} (f : A -> nat -> B) (idx : nat) (xs : list A) :
  List.length (mapFrom f idx xs) = List.length xs.
Proof.
  revert idx; induction xs as [|x xs IH]; intros idx; simpl;
    [reflexivity|now rewrite IH].
Qed.

Lemma mapFrom_delays (idx : nat) (ps : list Project) :
  map transitionDelay (mapFrom ProjectCard idx ps) =
  map (fun i => i * 150) (seq idx (List.length ps)).
Proof.
  revert idx; induction ps as [|p ps IH]; intros idx; simpl;
    [reflexivity|now rewrite IH].
Qed.

Lemma mapFrom_projects (idx : nat) (ps : list Project) :
  map project (mapFrom ProjectCard idx ps) = ps.
Proof.
  revert idx; induction ps as [|p ps IH]; intros idx; simpl;
    [reflexivity|now rewrite IH].
Qed.

(** [slice(0, n)] of an array without repetition has none. *)
Lemma NoDup_slice {A} (n : nat) (l : list A) : NoDup l -> NoDup (firstn n l).
Proof.
  revert l; induction n as [|n IH]; intros [|x l] H; simpl; try constructor.
  - inversion H as [|? ? Hx Hl]; subst.
    intros Hin. apply Hx. now apply GalleryFacts.In_slice in Hin.
  - inversion H; subst. now apply IH.
Qed.

Section Engine.

Variable toLocaleDateString : string -> string.
Variable Array_sort :
  Js.Comparator GitHubRepo -> list GitHubRepo -> Js.Random ->
  list GitHubRepo * Js.Random.
Hypothesis Array_sort_permutes :
  forall cmp l g, Permutation l (fst (Array_sort cmp l g)).

Local Abbreviation toProject := (Gallery.toProject toLocaleDateString).
Local Abbreviation load := (fetchGitHubProjects toLocaleDateString Array_sort).

(** X7. What the section shows once the request has settled.  From the
    first render (the spinner), a load that fails shows the error panel
    with the text [Unable to load projects] and no card; a load that
    succeeds shows the grid, never the panel, with one card for each
    project kept, in their order; the spinner is gone in both cases. *)
Theorem gallery_view_settled (r : Fetched) (g : Js.Random) :
  view initial = Spinner /\
  match r with
  | Repos repos =>
      exists cs, view (load r g initial) = Grid cs /\
                 map project cs =
                 mappedProjects toLocaleDateString Array_sort repos g
  | _ => view (load r g initial) = ErrorPanel "Unable to load projects" /\
         cards (load r g initial) = []
  end.
Proof.
  split; [reflexivity|].
  destruct r as [err| |err|repos]; try (split; reflexivity).
  eexists. split; [reflexivity|]. apply mapFrom_projects.
Qed.

(** X8. The delays of the cards.  Whatever the outcome of the load, the
    cards on the page have the transition delays 0, 150, 300, ... in their
    order, and since there are at most six of them no delay is above 750
    milliseconds. *)
Theorem card_delays_bounded (r : Fetched) (g : Js.Random) :
  let cs := cards (load r g initial) in
  map transitionDelay cs = map (fun i => i * 150) (seq 0 (List.length cs)) /\
  Forall (fun c => transitionDelay c <= 750) cs.
Proof.
  destruct r as [err| |err|repos]; try (split; [reflexivity|constructor]).
  cbv zeta. unfold cards, view. simpl.
  set (ps := mappedProjects toLocaleDateString Array_sort repos g).
  assert (L : List.length ps <= 6).
  { unfold ps.
    rewrite (GalleryFacts.mappedProjects_length _ _ Array_sort_permutes). lia. }
  assert (D := mapFrom_delays 0 ps).
  split.
  - now rewrite mapFrom_length.
  - apply Forall_forall. intros c Hc.
    apply (in_map transitionDelay) in Hc. rewrite D in Hc.
    apply in_map_iff in Hc as (i & <- & Hi). apply in_seq in Hi. lia.
Qed.


(** X10. No repository twice.  When the batch lists no repository
    twice, the cards of a successful load come from repositories of the
    batch that are all different. *)
Theorem gallery_no_duplicates (repos : list GitHubRepo) (g : Js.Random) (s : State) :
  NoDup repos ->
  exists shown,
    projects (load (Repos repos) g s) = map toProject shown /\
    NoDup shown /\ incl shown (validRepos repos).
Proof.
  intros H. exists (firstn 6 (shuffled Array_sort repos g)).
  split; [reflexivity|]. split.
  - apply NoDup_slice.
    apply (Permutation_NoDup (GalleryFacts.shuffled_permutes Array_sort
                                Array_sort_permutes repos g)).
    now apply NoDup_filter.
  - intros repo Hin. apply GalleryFacts.In_slice in Hin.
    apply (Permutation_in _ (Permutation_sym
             (GalleryFacts.shuffled_permutes Array_sort Array_sort_permutes repos g)))
      in Hin.
    exact Hin.
Qed.

End Engine.

(** X8 at the batch [Examples.nine]: six cards, the last one delayed by
    750 milliseconds. *)
Lemma card_delays_bounded_witness :
  map transitionDelay
    (cards (fetchGitHubProjects Examples.isoDay (@Js.insertionSort _)
              (Repos Examples.nine) Examples.mixedDraws initial))
  = [0; 150; 300; 450; 600; 750].
Proof.
  apply (proj1 (card_delays_bounded Examples.isoDay (@Js.insertionSort _)
                  (@JsFacts.insertionSort_permutes _)
                  (Repos Examples.nine) Examples.mixedDraws)).
Defined.


Lemma nine_NoDup : NoDup Examples.nine.
Proof.
  unfold Examples.nine.
  repeat (constructor; [simpl; intros H; repeat destruct H as [H|H]; try discriminate; exact H|]).
  constructor.
Defined.

(** X10 at the batch [Examples.nine]. *)
Lemma gallery_no_duplicates_witness :
  exists shown,
    projects (fetchGitHubProjects Examples.isoDay (@Js.insertionSort _)
                (Repos Examples.nine) Examples.mixedDraws initial)
    = map (Gallery.toProject Examples.isoDay) shown /\
    NoDup shown /\ incl shown (validRepos Examples.nine).
Proof.
  apply (gallery_no_duplicates Examples.isoDay (@Js.insertionSort _)
           (@JsFacts.insertionSort_permutes _)
           Examples.nine Examples.mixedDraws initial nine_NoDup).
Defined.

End GalleryViewFacts.

(** ** The transcript along a session *)
Module ChatLogFacts.
Import Chat ChatLog.

Lemma exchanges_snoc (n : nat) :
  exchanges n ++ [user; ai] = exchanges (S n).
Proof. induction n as [|n IH]; simpl; [reflexivity|]. now rewrite IH. Qed.

Lemma lastMessage_snoc (ms : list Message) (m : Message) :
  lastMessage (ms ++ [m]) = Some m.
Proof. unfold lastMessage. rewrite map_app. simpl. apply last_last. Qed.

Lemma orElse_not_empty (v : option string) (d : string) :
  d <> "" -> Js.orElse v d <> "".
Proof. destruct v as [[|c t]|]; simpl; congruence. Qed.

Lemma userMsg_wellFormed (s : string) :
  Js.truthyStr (Js.trim s) = true ->
  wellFormed {| role := user; text := Js.trim s |}.
Proof.
  intros H. split; simpl.
  - destruct (Js.trim s); [discriminate|congruence].
  - intros _. apply JsFacts.trim_idempotent.
Qed.

Lemma reply_wellFormed (r : Generated) (s : State) :
  exists m, messages (resume r s) = messages s ++ [m] /\
            role m = ai /\ wellFormed m.
Proof.
  eexists. split; [apply ChatFacts.resume_messages|]. split; [reflexivity|].
  split; simpl; [|discriminate].
  destruct r as [err|err|[|c t]]; discriminate.
Qed.

Lemma resume_isTyping (r : Generated) (s : State) : isTyping (resume r s) = false.
Proof. now destruct r. Qed.

Lemma chat_start_consistent : consistent start.
Proof.
  repeat split.
  - now left.
  - now exists 0.
  - repeat constructor; simpl; discriminate.
  - discriminate.
Qed.

(** Every event keeps the chat consistent. *)
Lemma chat_step_consistent (apiKey : option string) (e : Event) (c c' : Session) :
  consistent c -> step apiKey e c = Some c' -> consistent c'.
Proof.
  intros (One & (n & Sh) & WF & Pr) St.
  pose proof (ChatFacts.step_oneAtATime apiKey e c c' One St) as One'.
  split; [exact One'|]. clear One'.
  destruct e as [v| | | |r]; simpl in St.
  - injection St as <-. simpl. split; [now exists n|]. now split.
  - injection St as <-. simpl. split; [now exists n|]. now split.
  - injection St as <-. simpl. split; [now exists n|]. now split.
  - unfold handleSend in St.
    destruct (negb (Js.truthyStr (Js.trim (input (state c)))) || isTyping (state c))
      eqn:G.
    + injection St as <-. simpl. split; [now exists n|]. now split.
    + apply orb_false_iff in G as [Gt Gp]. apply negb_false_iff in Gt.
      rewrite Gp in Sh.
      assert (F : inFlight c = []).
      { destruct One as [[F _]|(p & _ & T)]; [exact F|congruence]. }
      destruct (negb (Js.truthy apiKey)); injection St as <-; simpl; unfold push.
      * split; [exists (S n)|split].
        -- rewrite !map_app, Sh; simpl. f_equal.
           rewrite !app_nil_r, <- app_assoc. simpl.
           now rewrite exchanges_snoc.
        -- rewrite <- app_assoc. apply Forall_app. split; [exact WF|].
           constructor; [now apply userMsg_wellFormed|].
           constructor; [|constructor]. split; simpl; discriminate.
        -- rewrite F. discriminate.
      * split; [exists n|split].
        -- rewrite map_app, Sh; simpl. now rewrite app_nil_r.
        -- apply Forall_app. split; [exact WF|].
           constructor; [now apply userMsg_wellFormed|constructor].
        -- rewrite F. simpl. intros prompt [= <-]. apply lastMessage_snoc.
  - destruct (inFlight c) as [|p rest] eqn:F; [discriminate|].
    injection St as <-. simpl.
    assert (T : isTyping (state c) = true /\ rest = []).
    { destruct One as [[F' _]|(p' & F' & T)]; [congruence|].
      split; [exact T|congruence]. }
    destruct T as [T ->]. rewrite T in Sh.
    destruct (reply_wellFormed r (state c)) as (m & Em & Rm & Wm).
    rewrite Em, resume_isTyping.
    split; [exists (S n)|split].
    + rewrite map_app, Sh; simpl. f_equal.
      rewrite Rm, !app_nil_r, <- app_assoc. simpl.
      now rewrite exchanges_snoc.
    + apply Forall_app. split; [exact WF|]. now constructor.
    + discriminate.
Qed.

Lemma chat_run_consistent (apiKey : option string) (es : list Event) (c c' : Session) :
  consistent c -> run apiKey es c = Some c' -> consistent c'.
Proof.
  revert c; induction es as [|e es IH]; simpl; intros c Hc.
  - now intros [= <-].
  - destruct (step apiKey e c) as [c1|] eqn:E; [|discriminate].
    apply IH. exact (chat_step_consistent _ _ _ _ Hc E).
Qed.

(** X11. Turns.  In every session the transcript is the introduction
    followed by whole exchanges, a user message and then the reply to it,
    and after them, exactly while a reply is awaited, the user message
    being answered: two user messages never follow one another, nor two
    replies. *)
Theorem chat_takes_turns (apiKey : option string) (es : list Event) (c : Session) :
  run apiKey es start = Some c ->
  exists n,
    map role (messages (state c)) =
    ai :: exchanges n ++ (if isTyping (state c) then [user] else []).
Proof. intros H. apply (chat_run_consistent _ _ _ _ chat_start_consistent H). Qed.

(** X12. Texts.  In every session no message of the transcript has an
    empty text, and the text of every user message is free of blanks at
    both ends. *)
Theorem chat_texts_wellFormed (apiKey : option string) (es : list Event) (c : Session) :
  run apiKey es start = Some c ->
  forall m, In m (messages (state c)) ->
    text m <> "" /\ (role m = user -> Js.trim (text m) = text m).
Proof.
  intros H. apply Forall_forall.
  apply (chat_run_consistent _ _ _ _ chat_start_consistent H).
Qed.

(** X13. The request in flight.  In every session at most one request is
    in flight; there is one exactly while the typing indicator is up; and
    its prompt is the text of the last message of the transcript, a user
    message. *)
Theorem chat_request_in_flight (apiKey : option string) (es : list Event) (c : Session) :
  run apiKey es start = Some c ->
  List.length (inFlight c) <= 1 /\
  (isTyping (state c) = true <-> inFlight c <> []) /\
  (forall prompt, In prompt (inFlight c) ->
     lastMessage (messages (state c)) = Some {| role := user; text := prompt |}).
Proof.
  intros H.
  destruct (chat_run_consistent _ _ _ _ chat_start_consistent H) as (One & _ & _ & Pr).
  destruct One as [[F T]|(p & F & T)]; rewrite F, T; simpl.
  - split; [lia|]. split; [split; [discriminate|congruence]|]. intros ? [].
  - split; [lia|]. split; [split; [discriminate|reflexivity]|].
    intros prompt [<-|[]]. now apply Pr.
Qed.

(** Without a credential every event leaves the chat idle. *)
Lemma step_no_credential (apiKey : option string) (e : Event) (c c' : Session) :
  Js.truthy apiKey = false ->
  inFlight c = [] /\ isTyping (state c) = false ->
  step apiKey e c = Some c' ->
  inFlight c' = [] /\ isTyping (state c') = false.
Proof.
  intros K [F T] St. destruct e as [v| | | |r]; simpl in St.
  - now injection St as <-.
  - now injection St as <-.
  - now injection St as <-.
  - unfold handleSend in St. rewrite K, T, orb_false_r in St. simpl in St.
    destruct (negb (Js.truthyStr (Js.trim (input (state c)))));
      now injection St as <-.
  - rewrite F in St. discriminate.
Qed.

(** X14. No credential, no request.  When [process.env.API_KEY] is
    missing or empty, no request is ever issued and the typing indicator
    is never left up: after any events nothing is in flight, and every
    assistant message of the transcript, the introduction apart, is the
    connection text. *)
Theorem chat_no_credential_no_request (apiKey : option string) (es : list Event) (c : Session) :
  Js.truthy apiKey = false ->
  run apiKey es start = Some c ->
  inFlight c = [] /\ isTyping (state c) = false /\
  (forall m, In m (messages (state c)) -> role m = ai ->
     m = seed \/ text m = connectionIssues).
Proof.
  intros K.
  assert (G : forall es c0, (inFlight c0 = [] /\ isTyping (state c0) = false) ->
            (forall m, In m (messages (state c0)) -> role m = ai ->
               m = seed \/ text m = connectionIssues) ->
            run apiKey es c0 = Some c ->
            inFlight c = [] /\ isTyping (state c) = false /\
            (forall m, In m (messages (state c)) -> role m = ai ->
               m = seed \/ text m = connectionIssues)).
  { clear es. induction es as [|e es IH]; simpl; intros c0 I0 M0 R.
    - injection R as <-. destruct I0. now repeat split.
    - destruct (step apiKey e c0) as [c1|] eqn:E; [|discriminate].
      apply (IH c1); [exact (step_no_credential _ _ _ _ K I0 E)| |exact R].
      destruct I0 as [F T]. destruct e as [v| | | |r]; simpl in E.
      + now injection E as <-.
      + now injection E as <-.
      + now injection E as <-.
      + unfold handleSend in E. rewrite K, T, orb_false_r in E. simpl in E.
        destruct (negb (Js.truthyStr (Js.trim (input (state c0)))));
          injection E as <-; [exact M0|].
        simpl. unfold push. intros m Hm Rm.
        apply in_app_or in Hm as [Hm|[<-|[]]].
        * apply in_app_or in Hm as [Hm|[<-|[]]]; [now apply M0|discriminate].
        * now right.
      + rewrite F in E. discriminate. }
  intros R. apply (G es start); [now split| |exact R].
  simpl. intros m [<-|[]] _. now left.
Qed.

(** X11 at [Sessions.chatEvents]: the introduction and the message being
    answered. *)
Lemma chat_takes_turns_witness :
  exists n,
    map role (messages (state Sessions.chatWaiting)) =
    ai :: exchanges n ++ [user].
Proof.
  apply (chat_takes_turns (Some "key") Sessions.chatEvents
           Sessions.chatWaiting eq_refl).
Defined.

(** X12 at [Sessions.chatEvents]: the message sent is [hi], without its
    blanks. *)
Lemma chat_texts_wellFormed_witness :
  text {| role := user; text := "hi" |} <> "" /\
  (role {| role := user; text := "hi" |} = user ->
   Js.trim (text {| role := user; text := "hi" |}) =
   text {| role := user; text := "hi" |}).
Proof.
  apply (chat_texts_wellFormed (Some "key") Sessions.chatEvents
           Sessions.chatWaiting eq_refl).
  simpl. right. now left.
Defined.

(** X13 at [Sessions.chatEvents]. *)
Lemma chat_request_in_flight_witness :
  List.length (inFlight Sessions.chatWaiting) <= 1 /\
  lastMessage (messages (state Sessions.chatWaiting)) =
  Some {| role := user; text := "hi" |}.
Proof.
  pose proof (chat_request_in_flight (Some "key") Sessions.chatEvents
                Sessions.chatWaiting eq_refl) as (L & _ & P).
  split; [exact L|]. apply P. simpl. now left.
Defined.

(** X14 at [Sessions.chatEvents] without a credential. *)
Lemma chat_no_credential_no_request_witness :
  inFlight Sessions.chatAnswered = [] /\
  isTyping (state Sessions.chatAnswered) = false.
Proof.
  pose proof (chat_no_credential_no_request None Sessions.chatEvents
                Sessions.chatAnswered eq_refl eq_refl) as (F & T & _).
  split; [exact F|exact T].
Defined.

End ChatLogFacts.

(** ** The contact form along a session *)
Module ContactSessionFacts.
Import Contact ContactSession.

Lemma form_start_consistent : consistent start.
Proof.
  unfold consistent; simpl. repeat split; try discriminate; try congruence.
  left. split; [reflexivity|discriminate].
Qed.

(** Every event the page offers keeps the form consistent. *)
Lemma form_step_consistent (accessKeyEnv : option string) (e : Event) (c c' : Session) :
  consistent c -> step accessKeyEnv e c = Some c' -> consistent c'.
Proof.
  destruct c as [[fs em fr] fl]. unfold consistent; simpl.
  intros (Mount & Err & Fl) St.
  destruct e as [|r|f|]; simpl in St.
  - unfold canSubmit in St; simpl in St.
    destruct fr as [f0|]; [|discriminate].
    destruct Fl as [[-> _]|(body & _ & ->)]; [|discriminate].
    assert (E : c' = {| state := {| formState := loading; errorMessage := "";
                                    formRef := Some f0 |};
                        inFlight := [formData accessKeyEnv f0] |}).
    { destruct fs; try discriminate; now injection St as <-. }
    subst c'; simpl. repeat split; try discriminate; try congruence.
    right. now eexists.
  - destruct Fl as [[-> _]|(body & -> & ->)]; [discriminate|].
    injection St as <-. simpl.
    assert (Em : em = "") by (apply Err; discriminate).
    destruct fr as [f0|]; [|destruct Mount as [M _]; now specialize (M eq_refl)].
    subst em.
    destruct r as [err|err|[[|] m]]; simpl;
      repeat split; try discriminate; try congruence;
      try (left; split; [reflexivity|discriminate]).
    + intros H _. destruct m as [[|ch m]|]; discriminate.
  - destruct fr as [f0|]; [|discriminate].
    injection St as <-. unfold edit; simpl.
    split; [|split; [exact Err|exact Fl]].
    split; [discriminate|]. intros S. apply Mount in S. discriminate.
  - unfold canSendAnother in St; simpl in St.
    destruct fs; try discriminate. injection St as <-.
    assert (Em : em = "") by (apply Err; discriminate).
    assert (Fr : fr = None) by now apply Mount.
    subst. unfold sendAnother; simpl.
    repeat split; try discriminate; try congruence.
    destruct Fl as [[-> _]|(body & _ & D)]; [|discriminate].
    left. split; [reflexivity|discriminate].
Qed.

Lemma form_run_consistent (accessKeyEnv : option string) (es : list Event) (c c' : Session) :
  consistent c -> run accessKeyEnv es c = Some c' -> consistent c'.
Proof.
  revert c; induction es as [|e es IH]; simpl; intros c Hc.
  - now intros [= <-].
  - destruct (step accessKeyEnv e c) as [c1|] eqn:E; [|discriminate].
    apply IH. exact (form_step_consistent _ _ _ _ Hc E).
Qed.

(** X15. One submission at a time.  Used through the page (the submit
    button is disabled while the form is loading, and there is no form on
    the confirmation panel), the form never has two requests in flight,
    and it has one exactly while it is in state [loading]. *)
Theorem form_one_request_at_a_time (accessKeyEnv : option string)
  (es : list Event) (c : Session) :
  run accessKeyEnv es start = Some c ->
  List.length (inFlight c) <= 1 /\
  (formState (state c) = loading <-> inFlight c <> []).
Proof.
  intros H.
  destruct (form_run_consistent _ _ _ _ form_start_consistent H) as (_ & _ & Fl).
  destruct Fl as [[-> N]|(body & -> & ->)]; simpl.
  - split; [lia|]. split; [intros L; now elim N|congruence].
  - split; [lia|]. split; [discriminate|reflexivity].
Qed.

(** X16. The panels of the form.  At every moment of a session the form
    is mounted exactly when the state is not [success]; an error text is
    shown exactly when the state is [error], and it is never empty; in the
    other states no error text is kept from an earlier attempt. *)
Theorem form_panels_consistent (accessKeyEnv : option string)
  (es : list Event) (c : Session) :
  run accessKeyEnv es start = Some c ->
  (formRef (state c) = None <-> formState (state c) = success) /\
  (formState (state c) = error ->
     exists msg, displayedError (state c) = Some msg /\ msg <> "") /\
  (formState (state c) <> error ->
     displayedError (state c) = None /\ errorMessage (state c) = "").
Proof.
  intros H.
  destruct (form_run_consistent _ _ _ _ form_start_consistent H) as (Mount & Err & _).
  split; [exact Mount|]. unfold displayedError. split.
  - intros E. rewrite E.
    destruct (formRef (state c)) eqn:F.
    + eexists. split; [reflexivity|]. intros Em. apply Err in Em. congruence.
    + pose proof (proj1 Mount eq_refl) as S. congruence.
  - intros N. split; [|now apply Err].
    destruct (formState (state c)); try reflexivity; congruence.
Qed.

(** X15 at [Sessions.formEvents]. *)
Lemma form_one_request_at_a_time_witness :
  List.length (inFlight Sessions.formRefused) <= 1.
Proof.
  apply (form_one_request_at_a_time None Sessions.formEvents
           Sessions.formRefused eq_refl).
Defined.

(** X16 at [Sessions.formEvents]: the refusal of the relay is shown. *)
Lemma form_panels_consistent_witness :
  exists msg, displayedError (state Sessions.formRefused) = Some msg /\ msg <> "".
Proof.
  apply (form_panels_consistent None Sessions.formEvents
           Sessions.formRefused eq_refl).
  reflexivity.
Defined.

End ContactSessionFacts.
